(** * sftp-promises: the promise wrapper around ssh2, as an event-driven machine

    The module under verification ([index.js]) turns the callback API of the
    ssh2 client into promises.  Everything it does happens inside callbacks:
    the executor of [new Promise], the listeners installed with [conn.on], the
    callbacks handed to [conn.sftp], [sftp.open], [sftp.read], ... and the
    reaction installed with [.then(resolved, rejected)].

    The embedding follows that structure.

    - A JavaScript closure is a constructor of a [closure] type carrying its
      captured variables, together with an [apply] function giving the body.
    - A callback body returns the list of [effect]s it performs, in order:
      calls of [resolve]/[reject] and calls of ssh2 methods.
    - The [world] holds what persists between callbacks: the Buffer heap, the
      callbacks ssh2 still owes a call, both promises, and a chronological
      trace of everything observable.
    - ssh2 and the remote server are the environment: a list of [event]s says
      which lifecycle signal the connection emits next, or which outstanding
      request completes next and how. *)

From Stdlib Require Import ZArith Lia.
From stdpp Require Import base option list strings gmap.

Local Open Scope Z_scope.

(** ** Data *)

Abbreviation byte := Byte.byte.

(** Address of a [Buffer] object in the heap. *)
Abbreviation ref := nat.
(** An SFTP file handle as returned by [sftp.open]. *)
Abbreviation fd := nat.
Abbreviation heap := (list (list byte)).

Inductive jserror : Type :=
| JsError (message : string)      (* new Error(message), built by index.js *)
| TransportError (code : nat).    (* an error object handed over by ssh2 *)

Inductive value : Type :=
| VTrue                           (* true *)
| VBuffer (buffer : ref).         (* a Buffer object *)

(** State of a settled promise. *)
Inductive outcome : Type :=
| Fulfilled (val : value)
| Rejected (err : jserror).

Definition failed (o : outcome) : bool :=
  match o with Fulfilled _ => false | Rejected _ => true end.

#[global] Instance jserror_eq_dec : EqDecision jserror.
Proof. solve_decision. Defined.
#[global] Instance value_eq_dec : EqDecision value.
Proof. solve_decision. Defined.
#[global] Instance outcome_eq_dec : EqDecision outcome.
Proof. solve_decision. Defined.

(** ** The ssh2 interface *)

(** Lifecycle signals of a [Client]. *)
Inductive signal : Type :=
| ready
| end_
| error (err : jserror).

(** Methods index.js itself calls on the connection inside [cmd]. *)
Inductive conn_call : Type :=
| conn_on (name : string)
| conn_connect
| conn_end
| conn_destroy.

#[global] Instance conn_call_eq_dec : EqDecision conn_call.
Proof. solve_decision. Defined.

(** Methods an operation body calls.  All but the two [pipe]s take a
    callback.  [sftp_createReadStream] and [sftp_createWriteStream] are
    synchronous in ssh2: they return a stream or throw into the surrounding
    [try]; the model hands that result to the code following the call as if
    it were the reply to a request. *)
Inductive request : Type :=
| conn_sftp
| conn_exec (command : string)
| stream_on (name : string)
| sftp_open (location flags : string)
| sftp_fstat (handle : fd)
| sftp_stat (path : string)
| sftp_read (handle : fd) (buffer : ref) (offset length position : Z)
| sftp_write (handle : fd) (buffer : ref) (offset length position : Z)
| sftp_close (handle : fd)
| sftp_createReadStream (path : string) (start end__ : Z)
| sftp_createWriteStream (path : string)
| stream_pipe                     (* stream.pipe(writableStream) *)
| readableStream_pipe.            (* readableStream.pipe(stream) *)

#[global] Instance request_eq_dec : EqDecision request.
Proof. solve_decision. Defined.

(** Listeners installed with [.on] stay installed after they fire; a plain
    callback is called once. *)
Definition persistent (r : request) : bool :=
  match r with stream_on _ => true | _ => false end.

(** What ssh2 (and the server behind it) decides about a request.  A read
    hands its callback the bytes read and a file position: with
    [gives_data] the position the read was issued for, with [gives_data_at]
    the position ssh2 chooses to report. *)
Inductive choice : Type :=
| fails (err : jserror)
| succeeds
| gives_handle (handle : fd)
| gives_size (size : Z)
| gives_data (chunk : list byte)
| gives_data_at (chunk : list byte) (position : Z)
| exits (exitCode : Z).

(** The arguments a callback is called with. *)
Inductive args : Type :=
| a_err (err : jserror)                              (* cb(err) *)
| a_ok                                             (* cb() *)
| a_sftp                                           (* cb(undefined, sftp) *)
| a_stream                                         (* cb(undefined, stream) *)
| a_handle (handle : fd)                           (* cb(undefined, handle) *)
| a_stat (size : Z)                                (* cb(undefined, stat) *)
| a_read (readBytes : Z) (offsetBuffer : ref) (position : Z)
| a_exit (exitCode : Z).

(** [buf.copy]: store [chunk] into [b] from index [off] on. *)
Definition write_at (off : nat) (chunk b : list byte) : list byte :=
  take off b ++ chunk ++ drop (off + length chunk)%nat b.

Definition fits (off : nat) (chunk : list byte) (len : Z) (b : list byte) : bool :=
  bool_decide (Z.of_nat (length chunk) <= len) &&
  bool_decide (off + length chunk <= length b)%nat.

(** ssh2 completing request [r] in the way [c]: the callback arguments and
    the heap afterwards.  [None] when [c] is not a way [r] can complete.
    A read stores the received chunk in the caller's buffer at the requested
    buffer offset and never delivers more than was asked for; it reports the
    length of the chunk and a file position, the requested one
    ([gives_data]) or another ([gives_data_at]). *)
Definition transport (r : request) (c : choice) (h : heap) : option (args * heap) :=
  match r, c with
  | stream_on name, exits code =>
      if decide (name = "exit") then Some (a_exit code, h) else None
  | stream_on name, fails err =>
      if decide (name = "error") then Some (a_err err, h) else None
  | stream_on name, succeeds =>
      if decide (name = "exit") then None
      else if decide (name = "error") then None else Some (a_ok, h)
  | stream_on _, _ => None
  | stream_pipe, _ | readableStream_pipe, _ => None
  | _, fails err => Some (a_err err, h)
  | conn_sftp, succeeds => Some (a_sftp, h)
  | conn_exec _, succeeds => Some (a_stream, h)
  | sftp_open _ _, gives_handle handle => Some (a_handle handle, h)
  | sftp_fstat _, gives_size size | sftp_stat _, gives_size size =>
      if bool_decide (0 <= size) then Some (a_stat size, h) else None
  | sftp_read _ buffer offset len position, gives_data chunk =>
      b ← h !! buffer;
      if fits (Z.to_nat offset) chunk len b
      then Some (a_read (Z.of_nat (length chunk)) buffer position,
                 <[buffer := write_at (Z.to_nat offset) chunk b]> h)
      else None
  | sftp_read _ buffer offset len _, gives_data_at chunk position =>
      b ← h !! buffer;
      if fits (Z.to_nat offset) chunk len b
      then Some (a_read (Z.of_nat (length chunk)) buffer position,
                 <[buffer := write_at (Z.to_nat offset) chunk b]> h)
      else None
  | sftp_write _ _ _ _ _, succeeds => Some (a_ok, h)
  | sftp_close _, succeeds => Some (a_ok, h)
  | sftp_createReadStream _ _ _, succeeds => Some (a_stream, h)
  | sftp_createWriteStream _, succeeds => Some (a_stream, h)
  | _, _ => None
  end.

(** ** Callback bodies and the world they run in *)

Inductive effect (closure : Type) : Type :=
| resolve (val : value)                  (* resolve(val) *)
| reject (err : jserror)                   (* reject(err) *)
| call (r : request) (cb : closure)      (* an ssh2 call taking a callback *)
| act (r : request).                     (* an ssh2 call taking none *)
Arguments resolve {closure} val.
Arguments reject {closure} err.
Arguments call {closure} r cb.
Arguments act {closure} r.

(** Everything observable, in the order it happens. *)
Inductive obs : Type :=
| Conn (m : conn_call)        (* cmd calls a method of the connection *)
| Called (r : request)        (* the operation body calls ssh2 *)
| Resolve (val : value)       (* resolve(val) is invoked *)
| Reject (err : jserror)        (* reject(err) is invoked *)
| Settled (o : outcome).      (* the promise returned by cmd settles *)

#[global] Instance obs_eq_dec : EqDecision obs.
Proof. solve_decision. Defined.

Record world (closure : Type) : Type := World {
  bufs : heap;                                 (* the Buffer objects *)
  outstanding : list (request * closure);      (* callbacks ssh2 holds *)
  inner : option outcome;                      (* new Promise(...) *)
  outer : option outcome;                      (* ....then(resolved, rejected) *)
  trace : list obs;
}.
Arguments World {closure}.
Arguments bufs {closure}.
Arguments outstanding {closure}.
Arguments inner {closure}.
Arguments outer {closure}.
Arguments trace {closure}.

Section World.
Context {closure : Type}.
Implicit Types (w : world closure) (o : outcome).

Definition log (x : obs) w : world closure :=
  World (bufs w) (outstanding w) (inner w) (outer w) (trace w ++ [x]).

Definition with_bufs (h : heap) w : world closure :=
  World h (outstanding w) (inner w) (outer w) (trace w).

Definition with_outstanding (l : list (request * closure)) w : world closure :=
  World (bufs w) l (inner w) (outer w) (trace w).

(** The resolving functions of a promise: the first call settles it, the
    later ones change nothing. *)
Definition settle o w : world closure :=
  World (bufs w) (outstanding w)
        (match inner w with None => Some o | Some o' => Some o' end)
        (outer w) (trace w).

Definition perform (e : effect closure) w : world closure :=
  match e with
  | resolve val => settle (Fulfilled val) (log (Resolve val) w)
  | reject err => settle (Rejected err) (log (Reject err) w)
  | call r cb => with_outstanding (outstanding w ++ [(r, cb)]) (log (Called r) w)
  | act r => log (Called r) w
  end.

Definition perform_all (es : list (effect closure)) w : world closure :=
  foldl (fun w e => perform e w) w es.

(** Run a callback body: its heap updates and then its effects. *)
Definition invoke (body : heap -> list (effect closure) * heap) w : world closure :=
  let '(es, h) := body (bufs w) in perform_all es (with_bufs h w).
End World.

(** What the environment does next. *)
Inductive event : Type :=
| emit (s : signal)               (* the connection emits a lifecycle signal *)
| fire (i : nat) (c : choice).    (* ssh2 completes the i-th outstanding request *)

(** ** cmd *)

Section Cmd.
Context {closure : Type}.
(** The code of every callback the operation uses. *)
Variable apply : closure -> args -> heap -> list (effect closure) * heap.
(** [cmdCB(resolve, reject, conn)]. *)
Variable cmdCB : heap -> list (effect closure) * heap.
(** Was a session passed, and was persistence asked for? *)
Variables session persist : bool.

Implicit Types (w : world closure).

Definition handleConn (failed : bool) w : world closure :=
  if negb session && (negb persist || failed)
  then log (Conn conn_destroy) (log (Conn conn_end) w)
  else w.

Definition fulfil (o : outcome) w : world closure :=
  log (Settled o) (World (bufs w) (outstanding w) (inner w) (Some o) (trace w)).

Definition rejected (err : jserror) w : world closure :=
  fulfil (Rejected err) (handleConn true w).

Definition resolved (val : value) w : world closure :=
  fulfil (Fulfilled val) (handleConn false w).

(** The reaction installed by [.then(resolved, rejected)]; it runs as a
    microtask once the callback that settled the inner promise returns. *)
Definition drain w : world closure :=
  match inner w, outer w with
  | Some (Fulfilled val), None => resolved val w
  | Some (Rejected err), None => rejected err w
  | _, _ => w
  end.

Definition executor w : world closure :=
  if session then invoke cmdCB w
  else log (Conn conn_connect)
         (log (Conn (conn_on "error"))
            (log (Conn (conn_on "end"))
               (log (Conn (conn_on "ready")) w))).

(** The state right after [cmd(cmdCB, session, persist)] returned. *)
Definition cmd (h : heap) : world closure :=
  drain (executor (World h [] None None [])).

Definition dispatch (ev : event) w : world closure :=
  match ev with
  | emit s =>
      if session then w
      else match s with
           | ready => invoke cmdCB w
           | end_ => perform (reject (JsError "Connection closed")) w
           | error err => perform (reject err) w
           end
  | fire i c =>
      match outstanding w !! i with
      | None => w
      | Some (r, cb) =>
          match transport r c (bufs w) with
          | None => w
          | Some (a, h) =>
              let rest := if persistent r then outstanding w
                          else delete i (outstanding w) in
              invoke (apply cb a) (with_outstanding rest (with_bufs h w))
          end
      end
  end.

Definition step w (ev : event) : world closure := drain (dispatch ev w).

Definition run (h : heap) (evs : list event) : world closure :=
  foldl step (cmd h) evs.
End Cmd.

(** ** The operations built on cmd *)

(** The callbacks of index.js that the operations below create.  A
    constructor is one [function] expression of the source and carries the
    variables that function captures (the [sftp] object and the
    [resolve]/[reject] pair, which every one of them captures, are left
    out).  The two [_created] constructors are the rest of a callback after
    its [try { ... createXStream(...) } catch], which runs with the stream
    returned or the error caught. *)
Inductive closure : Type :=
(* execCmd *)
| execCmd_exec_cb                               (* function (err, stream) *)
| execCmd_exit_cb                               (* function (exitCode) *)
(* getBuffer *)
| getBufferCmd (location : string)              (* function (err, sftp) *)
| getBuffer_open_cb                             (* function (err, handle) *)
| getBuffer_fstat_cb (handle : fd)              (* function (err, stat) *)
| getBuffer_cb (handle : fd) (buffer : ref) (bytes : Z)
                          (* var cb = function (err, readBytes, offsetBuffer, position) *)
| getBuffer_close_cb (buffer : ref)             (* function (err) *)
(* putBuffer *)
| putBufferCmd (buffer : ref) (location : string)   (* function (err, sftp) *)
| putBuffer_open_cb (buffer : ref)              (* function (err, handle) *)
| putBuffer_write_cb (handle : fd)              (* function (err) *)
| putBuffer_close_cb                            (* function (err) *)
(* getStream; [writable] is writableStream.writable *)
| getStreamCmd (path : string) (writable : bool)    (* function (err, sftp) *)
| getStream_stat_cb (path : string)             (* function (err, stat) *)
| getStream_created                             (* ... its part after the try *)
| getStream_end_cb                              (* function () *)
| getStream_error_cb                            (* function (err) *)
(* putStream; [readable] is readableStream.readable *)
| putStreamCmd (path : string) (readable : bool)    (* function (err, sftp) *)
| putStream_created                             (* ... its part after the try *)
| putStream_open_cb                             (* function () *)
| putStream_finish_cb                           (* function () *)
| putStream_error_cb.                           (* function (err) *)

(** [Buffer.alloc(size)]: a new zero-filled buffer. *)
Definition Buffer_alloc (size : Z) (h : heap) : ref * heap :=
  (length h, h ++ [replicate (Z.to_nat size) Byte.x00]).

(** [buffer.fill(0)]. *)
Definition Buffer_fill0 (buffer : ref) (h : heap) : heap :=
  alter (fun b => replicate (length b) Byte.x00) buffer h.

(** [buffer.length]. *)
Definition Buffer_length (buffer : ref) (h : heap) : Z :=
  Z.of_nat (length (default [] (h !! buffer))).

Definition apply (cb : closure) (a : args) (h : heap)
  : list (effect closure) * heap :=
  match cb, a with
  (* ---- execCmd ---- *)
  | execCmd_exec_cb, a_err err => ([reject err], h)
  | execCmd_exec_cb, a_stream => ([call (stream_on "exit") execCmd_exit_cb], h)
  | execCmd_exit_cb, a_exit exitCode =>
      if bool_decide (exitCode <> 0)
      then ([reject (JsError "none zero exit code")], h)
      else ([resolve VTrue], h)
  (* ---- getBuffer ---- *)
  | getBufferCmd _, a_err err => ([reject err], h)
  | getBufferCmd location, a_sftp =>
      ([call (sftp_open location "r") getBuffer_open_cb], h)
  | getBuffer_open_cb, a_err err => ([reject err], h)
  | getBuffer_open_cb, a_handle handle =>
      ([call (sftp_fstat handle) (getBuffer_fstat_cb handle)], h)
  | getBuffer_fstat_cb _, a_err err => ([reject err], h)
  | getBuffer_fstat_cb handle, a_stat size =>
      let bytes := size in
      let '(buffer, h) := Buffer_alloc bytes h in
      if bool_decide (bytes = 0) then ([resolve (VBuffer buffer)], h)
      else
        let h := Buffer_fill0 buffer h in
        ([call (sftp_read handle buffer 0 bytes 0)
               (getBuffer_cb handle buffer bytes)], h)
  | getBuffer_cb _ _ _, a_err err => ([reject err], h)
  | getBuffer_cb handle buffer bytes, a_read readBytes offsetBuffer position =>
      let position := position + readBytes in
      let bytes := bytes - readBytes in
      if bool_decide (bytes < 1)
      then ([call (sftp_close handle) (getBuffer_close_cb buffer)], h)
      else ([call (sftp_read handle buffer position bytes position)
                  (getBuffer_cb handle buffer bytes)], h)
  | getBuffer_close_cb _, a_err err => ([reject err], h)
  | getBuffer_close_cb buffer, a_ok => ([resolve (VBuffer buffer)], h)
  (* ---- putBuffer ---- *)
  | putBufferCmd _ _, a_err err => ([reject err], h)
  | putBufferCmd buffer location, a_sftp =>
      ([call (sftp_open location "w") (putBuffer_open_cb buffer)], h)
  | putBuffer_open_cb _, a_err err => ([reject err], h)
  | putBuffer_open_cb buffer, a_handle handle =>
      ([call (sftp_write handle buffer 0 (Buffer_length buffer h) 0)
             (putBuffer_write_cb handle)], h)
  | putBuffer_write_cb _, a_err err => ([reject err], h)
  | putBuffer_write_cb handle, a_ok =>
      ([call (sftp_close handle) putBuffer_close_cb], h)
  | putBuffer_close_cb, a_err err => ([reject err], h)
  | putBuffer_close_cb, a_ok => ([resolve VTrue], h)
  (* ---- getStream ---- *)
  | getStreamCmd path writable, (a_err _ | a_sftp) =>
      if negb writable
      then ([reject (JsError "Stream must be a writable stream")], h)
      else match a with
           | a_err err => ([reject err], h)
           | _ => ([call (sftp_stat path) (getStream_stat_cb path)], h)
           end
  | getStream_stat_cb _, a_err err => ([reject err], h)
  | getStream_stat_cb path, a_stat size =>
      let bytes := size in
      let bytes := if bool_decide (bytes > 0) then bytes - 1 else bytes in
      ([call (sftp_createReadStream path 0 bytes) getStream_created], h)
  | getStream_created, a_err err => ([reject err], h)
  | getStream_created, a_stream =>
      ([act stream_pipe;
        call (stream_on "end") getStream_end_cb;
        call (stream_on "error") getStream_error_cb], h)
  | getStream_end_cb, a_ok => ([resolve VTrue], h)
  | getStream_error_cb, a_err err => ([reject err], h)
  (* ---- putStream ---- *)
  | putStreamCmd path readable, (a_err _ | a_sftp) =>
      if negb readable
      then ([reject (JsError "Stream must be a readable stream")], h)
      else match a with
           | a_err err => ([reject err], h)
           | _ => ([call (sftp_createWriteStream path) putStream_created], h)
           end
  | putStream_created, a_err err => ([reject err], h)
  | putStream_created, a_stream =>
      ([call (stream_on "open") putStream_open_cb;
        call (stream_on "finish") putStream_finish_cb;
        call (stream_on "error") putStream_error_cb], h)
  | putStream_open_cb, a_ok => ([act readableStream_pipe], h)
  | putStream_finish_cb, a_ok => ([resolve VTrue], h)
  | putStream_error_cb, a_err err => ([reject err], h)
  (* a callback is never called with arguments of another request *)
  | _, _ => ([], h)
  end.

(** [sftpCmd(cmdCB, session, persist)]: [compiledCallBack] is what
    [cmdCB(resolve, reject, conn)] returned. *)
Definition sftpCmd (compiledCallBack : closure) (session persist : bool)
  : heap -> list event -> world closure :=
  run apply (fun h => ([call conn_sftp compiledCallBack], h)) session persist.

Definition execCmd (command : string) (session persist : bool)
  : heap -> list event -> world closure :=
  run apply (fun h => ([call (conn_exec command) execCmd_exec_cb], h))
      session persist.

Definition getBuffer (location : string) (session : bool)
  : heap -> list event -> world closure :=
  sftpCmd (getBufferCmd location) session false.

Definition putBuffer (buffer : ref) (location : string) (session : bool)
  : heap -> list event -> world closure :=
  sftpCmd (putBufferCmd buffer location) session false.

Definition getStream (path : string) (writable : bool) (session : bool)
  : heap -> list event -> world closure :=
  sftpCmd (getStreamCmd path writable) session false.

Definition putStream (path : string) (readable : bool) (session : bool)
  : heap -> list event -> world closure :=
  sftpCmd (putStreamCmd path readable) session false.

(** The signals a connection goes through before an operation body starts:
    none for a session, which is connected already. *)
Definition connected (session : bool) : list event :=
  if session then [] else [emit ready].

(** ** Reading a trace *)

Definition invocation (x : obs) : option outcome :=
  match x with
  | Resolve val => Some (Fulfilled val)
  | Reject err => Some (Rejected err)
  | _ => None
  end.

Definition settlement (x : obs) : option outcome :=
  match x with Settled o => Some o | _ => None end.

Definition conn_method (x : obs) : option conn_call :=
  match x with Conn m => Some m | _ => None end.

Definition closing (x : obs) : option conn_call :=
  match x with
  | Conn conn_end => Some conn_end
  | Conn conn_destroy => Some conn_destroy
  | _ => None
  end.

Definition requested (x : obs) : option request :=
  match x with Called r => Some r | _ => None end.

(** Every call of [resolve] or [reject], as the outcome it asks for. *)
Definition invocations (t : list obs) : list outcome := omap invocation t.
(** Every settlement of the promise [cmd] returned. *)
Definition settlements (t : list obs) : list outcome := omap settlement t.
(** Every call [cmd] made on the connection. *)
Definition conn_calls (t : list obs) : list conn_call := omap conn_method t.
(** The [conn.end()] and [conn.destroy()] calls among them. *)
Definition closings (t : list obs) : list conn_call := omap closing t.
(** Every ssh2 call of the operation body. *)
Definition requests (t : list obs) : list request := omap requested t.

Definition is_read (r : request) : bool :=
  match r with sftp_read _ _ _ _ _ => true | _ => false end.
Definition is_write (r : request) : bool :=
  match r with sftp_write _ _ _ _ _ => true | _ => false end.

(** What [handleConn(failed)] calls on the connection. *)
Definition teardown (session persist failed : bool) : list conn_call :=
  if negb session && (negb persist || failed) then [conn_end; conn_destroy] else [].

Definition obs_of {closure : Type} (e : effect closure) : obs :=
  match e with
  | resolve val => Resolve val
  | reject err => Reject err
  | call r _ => Called r
  | act r => Called r
  end.

(** ** The stages of a call *)

Section Stages.
Context {closure : Type}.
Variables session persist : bool.
Implicit Types (w : world closure) (o : outcome).

(** One callback of the operation ran between [w] and [w']: the trace grew
    by its effects, the inner promise took the first outcome asked for if
    it had none, and the outer promise was not touched. *)
Definition tick w w' : Prop :=
  exists es : list (effect closure),
    trace w' = trace w ++ map obs_of es /\
    inner w' = match inner w with
               | Some o => Some o
               | None => head (invocations (map obs_of es))
               end /\
    outer w' = outer w.

(** The three stages of a call. *)
Definition unsettled w : Prop :=
  inner w = None /\ outer w = None /\ invocations (trace w) = [] /\
  closings (trace w) = [] /\ settlements (trace w) = [].

Definition settling o w : Prop :=
  inner w = Some o /\ outer w = None /\
  head (invocations (trace w)) = Some o /\
  closings (trace w) = [] /\ settlements (trace w) = [].

Definition settled o w : Prop :=
  inner w = Some o /\ outer w = Some o /\
  exists pre post,
    trace w = pre ++ map Conn (teardown session persist (failed o))
                  ++ Settled o :: post /\
    head (invocations pre) = Some o /\
    closings pre = [] /\ settlements pre = [] /\
    closings post = [] /\ settlements post = [].

(** Where a world stands after the microtasks have run. *)
Definition at_rest w : Prop := unsettled w \/ exists o, settled o w.

End Stages.

(** The reading of "exactly one of resolve/reject is invoked, exactly once"
    on a trace. *)
Definition invoked_exactly_once {closure : Type} (w : world closure) : Prop :=
  length (invocations (trace w)) = 1%nat.

(** ** Scripts of the environment *)

(** The completions of a putBuffer in which every step succeeds. *)
Definition putBuffer_replies (handle : fd) : list event :=
  [fire 0 succeeds; fire 0 (gives_handle handle); fire 0 succeeds; fire 0 succeeds].

(** The completions up to the fstat of a getBuffer: the sub-channel, the
    file handle and the size of the file. *)
Definition getBuffer_opening (handle : fd) (size : Z) : list event :=
  [fire 0 succeeds; fire 0 (gives_handle handle); fire 0 (gives_size size)].

(** The reads the loop of getBuffer issues when the successive reads deliver
    [chunks]: each starts where the one before stopped and asks for all that
    is still missing. *)
Fixpoint reads_from (handle : fd) (buffer : ref) (position bytes : Z)
    (chunks : list (list byte)) : list request :=
  match chunks with
  | [] => []
  | chunk :: chunks =>
      sftp_read handle buffer position bytes position
      :: reads_from handle buffer (position + Z.of_nat (length chunk))
           (bytes - Z.of_nat (length chunk)) chunks
  end.

(** The successive reads complete with these chunks. *)
Definition deliver (chunks : list (list byte)) : list event :=
  map (fun chunk => fire 0 (gives_data chunk)) chunks.

(** The completions of a getBuffer in which every step succeeds, the file
    has as many bytes as [chunks] together, and the reads deliver
    [chunks]. *)
Definition getBuffer_replies (handle : fd) (chunks : list (list byte))
  : list event :=
  getBuffer_opening handle (Z.of_nat (length (concat chunks)))
  ++ deliver chunks ++ [fire 0 succeeds].

(** ** A remote server *)





Section Server.
(** How many bytes the server sends back for a read of [len] bytes at
    [position]: short reads are its choice. *)
Variable grant : Z -> Z -> nat.
(** The file position ssh2 hands to the callback of a read of [len] bytes
    issued for [position]. *)
Variable report : Z -> Z -> Z.



Definition sftp_step (compiledCallBack : closure) (session persist : bool)
  : world closure -> event -> world closure :=
  step apply (fun h => ([call conn_sftp compiledCallBack], h)) session persist.




End Server.


(** ** putBuffer, whatever ssh2 answers *)

Definition is_sftp (r : request) : bool :=
  match r with conn_sftp => true | _ => false end.

(** How many writes a callback of putBuffer can still lead to. *)
Definition writes_ahead (cb : closure) : nat :=
  match cb with
  | putBufferCmd _ _ | putBuffer_open_cb _ => 1
  | _ => 0
  end.

Definition pending_writes (l : list (request * closure)) : nat :=
  sum_list_with (fun rc => writes_ahead rc.2) l.

(** A request of [putBuffer(buffer, ...)] with the callback it passed. *)
Definition of_putBuffer (buffer : ref) (rc : request * closure) : Prop :=
  match rc with
  | (conn_sftp, putBufferCmd b _) => b = buffer
  | (sftp_open _ _, putBuffer_open_cb b) => b = buffer
  | (sftp_write _ _ _ _ _, putBuffer_write_cb _) => True
  | (sftp_close _, putBuffer_close_cb) => True
  | _ => False
  end.

(** A write, if it is one, is of the whole of [buffer] to the start of the
    file. *)
Definition whole_buffer_write (buffer : ref) (h : heap) (r : request) : Prop :=
  match r with
  | sftp_write _ b offset len position =>
      b = buffer /\ offset = 0 /\ len = Buffer_length buffer h /\ position = 0
  | _ => True
  end.

Definition putBuffer_inv (buffer : ref) (h : heap) (w : world closure) : Prop :=
  bufs w = h /\
  Forall (of_putBuffer buffer) (outstanding w) /\
  Forall (whole_buffer_write buffer h) (requests (trace w)) /\
  (length (filter is_write (requests (trace w))) + pending_writes (outstanding w)
   <= length (filter is_sftp (requests (trace w))))%nat.

(** ** More of the environment's scripts *)

Definition is_ready (ev : event) : bool :=
  match ev with emit ready => true | _ => false end.

Definition is_fire (ev : event) : bool :=
  match ev with fire _ _ => true | emit _ => false end.

(** What the listeners [cmd] installs for 'end' and 'error' ask for. *)
Definition signal_rejection (ev : event) : option outcome :=
  match ev with
  | emit end_ => Some (Rejected (JsError "Connection closed"))
  | emit (error err) => Some (Rejected err)
  | _ => None
  end.

(** ** mkdirp *)

(** The one-character string holding a double quote. *)
Definition dquote : string := String (Ascii.ascii_of_nat 34) EmptyString.

(** ['mkdir -p "' + path + '"']. *)
Definition mkdirp_command (path : string) : string :=
  String.append "mkdir -p " (String.append dquote (String.append path dquote)).

Definition mkdirp (path : string) (session : bool)
  : heap -> list event -> world closure :=
  execCmd (mkdirp_command path) session false.

(** ** session *)

(** [session(conf)] builds its promise without [cmd].  What it does, in
    order: the listeners it installs, connect, removeAllListeners, and the
    calls of resolve(conn) and reject(err). *)
Inductive session_obs : Type :=
| SOn (name : string)
| SConnect
| SRemoveAllListeners
| SResolve
| SReject (err : jserror).

Inductive session_outcome : Type :=
| SessionResolved                 (* fulfilled with conn *)
| SessionRejected (err : jserror).

Record session_state : Type := SessionState {
  listening : bool;                        (* are the three listeners installed? *)
  session_promise : option session_outcome;
  session_trace : list session_obs;
}.

Definition session_resolve (st : session_state) : session_state :=
  SessionState (listening st)
    (match session_promise st with None => Some SessionResolved | p => p end)
    (session_trace st ++ [SResolve]).

Definition session_reject (err : jserror) (st : session_state) : session_state :=
  SessionState (listening st)
    (match session_promise st with None => Some (SessionRejected err) | p => p end)
    (session_trace st ++ [SReject err]).

(** The executor; [thrown] is what [conn.connect(conf)] throws, if it
    does. *)
Definition session (thrown : option jserror) : session_state :=
  let st := SessionState true None [SOn "ready"; SOn "end"; SOn "error"; SConnect] in
  match thrown with
  | Some err => session_reject err st
  | None => st
  end.

(** The connection emits a signal. *)
Definition session_signal (st : session_state) (s : signal) : session_state :=
  if listening st then
    match s with
    | ready =>
        session_resolve
          (SessionState false (session_promise st)
             (session_trace st ++ [SRemoveAllListeners]))
    | end_ => session_reject (JsError "Connection closed") st
    | error err => session_reject err st
    end
  else st.

Definition session_run (thrown : option jserror) (signals : list signal)
  : session_state :=
  foldl session_signal (session thrown) signals.

(** ** The file system operations and the stream factories *)

(** ls, stat, get, put, rm, mv, rmdir, mkdir, realpath, pwd, createReadStream
    and createWriteStream call methods of ssh2 and resolve with values that
    the buffer operations do not use.  They are modelled by the same machine
    over these calls and values. *)
Module Fs.

(** A [Stats] object of ssh2: its own properties, all numbers (mode, uid,
    gid, size, atime, mtime), the enumerable names it inherits from its
    prototype, and the answers of its isDirectory() and isFile(). *)
Record Stats : Type := {
  own : gmap string Z;
  inherited : gset string;
  isDirectory : bool;
  isFile : bool;
}.

Inductive jsval : Type :=
| JNum (n : Z)
| JStr (s : string).

(** The names [for (var attr in stats)] goes through: the own ones, then the
    inherited ones that no own one hides. *)
Definition for_in (stats : Stats) : list string :=
  elements (dom (own stats)) ++ elements (inherited stats ∖ dom (own stats)).

Definition hasOwnProperty (stats : Stats) (attr : string) : bool :=
  bool_decide (attr ∈ dom (own stats)).

Definition statToAttrs (stats : Stats) : gmap string jsval :=
  foldl (fun attrs attr =>
           if hasOwnProperty stats attr
           then <[attr := JNum (own stats !!! attr)]> attrs
           else attrs)
        ∅ (for_in stats).

(** [stat.size], undefined when the object has no such property. *)
Definition size (stats : Stats) : option Z := own stats !! "size".

Inductive value : Type :=
| VTrue
| VStream                                   (* a stream of ssh2 *)
| VString (s : string)
| VAttrs (attrs : gmap string jsval)        (* what stat resolves *)
| VListing (path type : string) (attrs : gmap string jsval)
           (entries : option (list string)). (* what ls resolves *)

Inductive outcome : Type :=
| Fulfilled (val : value)
| Rejected (err : jserror).

Definition failed (o : outcome) : bool :=
  match o with Fulfilled _ => false | Rejected _ => true end.

(** The calls an operation body makes; [callback_conn_end] and
    [callback_conn_destroy] are the conn.end() and conn.destroy() written in
    the stream listeners.  The last three take no callback. *)
Inductive request : Type :=
| conn_sftp
| sftp_stat (path : string)
| sftp_readdir (path : string)
| sftp_fastGet (remote local : string)
| sftp_fastPut (local remote : string)
| sftp_unlink (path : string)
| sftp_rename (src dest : string)
| sftp_rmdir (path : string)
| sftp_mkdir (path : string)
| sftp_realpath (path : string)
| sftp_createReadStream (path : string) (start : Z) (end__ : option Z)
| sftp_createWriteStream (path : string)
| stream_on (name : string)
| stream_close
| callback_conn_end
| callback_conn_destroy.

Definition persistent (r : request) : bool :=
  match r with stream_on _ => true | _ => false end.

Inductive choice : Type :=
| fails (err : jserror)
| succeeds
| gives_stats (stats : Stats)
| gives_list (list : list string)
| gives_path (rpath : string).

Inductive args : Type :=
| a_err (err : jserror)
| a_ok
| a_sftp
| a_stream
| a_stats (stats : Stats)
| a_list (list : list string)
| a_path (rpath : string).

Definition transport (r : request) (c : choice) : option args :=
  match r, c with
  | stream_on name, fails err =>
      if decide (name = "error") then Some (a_err err) else None
  | stream_on name, succeeds =>
      if decide (name = "error") then None else Some a_ok
  | stream_on _, _ => None
  | (stream_close | callback_conn_end | callback_conn_destroy), _ => None
  | _, fails err => Some (a_err err)
  | conn_sftp, succeeds => Some a_sftp
  | (sftp_stat _), gives_stats stats => Some (a_stats stats)
  | sftp_readdir _, gives_list list => Some (a_list list)
  | sftp_realpath _, gives_path rpath => Some (a_path rpath)
  | (sftp_createReadStream _ _ _ | sftp_createWriteStream _), succeeds =>
      Some a_stream
  | (sftp_fastGet _ _ | sftp_fastPut _ _ | sftp_unlink _ | sftp_rename _ _
     | sftp_rmdir _ | sftp_mkdir _), succeeds => Some a_ok
  | _, _ => None
  end.

(** The callbacks.  [session] is the parameter of the enclosing method that
    the stream listeners test. *)
Inductive closure : Type :=
| lsCmd (location : string)
| ls_stat_cb (location : string)
| ls_readdir_cb (location : string) (attrs : gmap string jsval)
| statCmd (location : string)
| stat_stat_cb (location : string)
| getCmd (remote local : string)
| putCmd (local remote : string)
| rmCmd (location : string)
| mvCmd (src dest : string)
| rmdirCmd (path : string)
| mkdirCmd (path : string)
| true_cb           (* function (err) { if (err) { return reject(err) } resolve(true) } *)
| realpathCmd (path : string)
| realpath_cb
| createReadStreamCmd (path : string) (session : bool)
| createReadStream_stat_cb (path : string) (session : bool)
| createReadStream_created (session : bool)
| createReadStream_close_cb (session : bool)
| createReadStream_error_cb (session : bool)
| createReadStream_readable_cb
| createWriteStreamCmd (path : string) (session : bool)
| createWriteStream_created (session : bool)
| createWriteStream_close_cb (session : bool)
| createWriteStream_error_cb (session : bool)
| createWriteStream_open_cb.

Inductive effect : Type :=
| resolve (val : value)
| reject (err : jserror)
| call (r : request) (cb : closure)
| act (r : request).

(** [if (!session) { conn.end(); conn.destroy() }]. *)
Definition clean (session : bool) : list effect :=
  if negb session then [act callback_conn_end; act callback_conn_destroy] else [].

Definition type_of (stats : Stats) : string :=
  if isDirectory stats then "directory"
  else if isFile stats then "file" else "other".

Definition apply (cb : closure) (a : args) : list effect :=
  match cb, a with
  (* ---- ls ---- *)
  | lsCmd _, a_err err => [reject err]
  | lsCmd location, a_sftp => [call (sftp_stat location) (ls_stat_cb location)]
  | ls_stat_cb _, a_err err => [reject err]
  | ls_stat_cb location, a_stats stat =>
      let attrs := statToAttrs stat in
      if isDirectory stat
      then [call (sftp_readdir location) (ls_readdir_cb location attrs)]
      else if isFile stat
      then [resolve (VListing location "file" attrs None)]
      else [resolve (VListing location "other" attrs None)]
  | ls_readdir_cb _ _, a_err err => [reject err]
  | ls_readdir_cb location attrs, a_list list =>
      [resolve (VListing location "directory" attrs (Some list))]
  (* ---- stat ---- *)
  | statCmd _, a_err err => [reject err]
  | statCmd location, a_sftp => [call (sftp_stat location) (stat_stat_cb location)]
  | stat_stat_cb _, a_err err => [reject err]
  | stat_stat_cb location, a_stats stat =>
      let attrs := statToAttrs stat in
      let attrs := <["path" := JStr location]> attrs in
      let attrs :=
        if isDirectory stat then <["type" := JStr "directory"]> attrs
        else if isFile stat then <["type" := JStr "file"]> attrs
        else <["type" := JStr "other"]> attrs in
      [resolve (VAttrs attrs)]
  (* ---- get, put, rm, mv, rmdir, mkdir ---- *)
  | (getCmd _ _ | putCmd _ _ | rmCmd _ | mvCmd _ _ | rmdirCmd _ | mkdirCmd _),
    a_err err => [reject err]
  | getCmd remote local, a_sftp => [call (sftp_fastGet remote local) true_cb]
  | putCmd local remote, a_sftp => [call (sftp_fastPut local remote) true_cb]
  | rmCmd location, a_sftp => [call (sftp_unlink location) true_cb]
  | mvCmd src dest, a_sftp => [call (sftp_rename src dest) true_cb]
  | rmdirCmd path, a_sftp => [call (sftp_rmdir path) true_cb]
  | mkdirCmd path, a_sftp => [call (sftp_mkdir path) true_cb]
  | true_cb, a_err err => [reject err]
  | true_cb, a_ok => [resolve VTrue]
  (* ---- realpath ---- *)
  | realpathCmd _, a_err err => [reject err]
  | realpathCmd path, a_sftp => [call (sftp_realpath path) realpath_cb]
  | realpath_cb, a_err err => [reject err]
  | realpath_cb, a_path rpath => [resolve (VString rpath)]
  (* ---- createReadStream ---- *)
  | createReadStreamCmd _ _, a_err err => [reject err]
  | createReadStreamCmd path session, a_sftp =>
      [call (sftp_stat path) (createReadStream_stat_cb path session)]
  | createReadStream_stat_cb _ _, a_err err => [reject err]
  | createReadStream_stat_cb path session, a_stats stat =>
      let bytes := size stat in
      let bytes :=
        match bytes with
        | Some n => if bool_decide (n > 0) then Some (n - 1) else Some n
        | None => None
        end in
      [call (sftp_createReadStream path 0 bytes) (createReadStream_created session)]
  | createReadStream_created _, a_err err => [reject err]
  | createReadStream_created session, a_stream =>
      [call (stream_on "close") (createReadStream_close_cb session);
       call (stream_on "error") (createReadStream_error_cb session);
       call (stream_on "readable") createReadStream_readable_cb]
  | createReadStream_close_cb session, a_ok => clean session
  | createReadStream_error_cb session, a_err _ => clean session
  | createReadStream_readable_cb, a_ok => [resolve VStream; act stream_close]
  (* ---- createWriteStream ---- *)
  | createWriteStreamCmd _ _, a_err err => [reject err]
  | createWriteStreamCmd path session, a_sftp =>
      [call (sftp_createWriteStream path) (createWriteStream_created session)]
  | createWriteStream_created _, a_err err => [reject err]
  | createWriteStream_created session, a_stream =>
      [call (stream_on "close") (createWriteStream_close_cb session);
       call (stream_on "error") (createWriteStream_error_cb session);
       call (stream_on "open") createWriteStream_open_cb]
  | createWriteStream_close_cb session, a_ok => clean session
  | createWriteStream_error_cb session, a_err err => clean session ++ [reject err]
  | createWriteStream_open_cb, a_ok => [resolve VStream]
  | _, _ => []
  end.

(** *** The machine *)

Inductive obs : Type :=
| Conn (m : conn_call)        (* cmd calls a method of the connection *)
| Called (r : request)        (* the operation body calls ssh2 *)
| Resolve (val : value)
| Reject (err : jserror)
| Settled (o : outcome).

Record world : Type := World {
  outstanding : list (request * closure);
  inner : option outcome;
  outer : option outcome;
  trace : list obs;
}.

Inductive event : Type :=
| emit (s : signal)
| fire (i : nat) (c : choice).

Definition log (x : obs) (w : world) : world :=
  World (outstanding w) (inner w) (outer w) (trace w ++ [x]).

Definition settle (o : outcome) (w : world) : world :=
  World (outstanding w)
        (match inner w with None => Some o | Some o' => Some o' end)
        (outer w) (trace w).

Definition perform (e : effect) (w : world) : world :=
  match e with
  | resolve val => settle (Fulfilled val) (log (Resolve val) w)
  | reject err => settle (Rejected err) (log (Reject err) w)
  | call r cb =>
      World (outstanding w ++ [(r, cb)]) (inner w) (outer w)
            (trace w ++ [Called r])
  | act r => log (Called r) w
  end.

Definition perform_all (es : list effect) (w : world) : world :=
  foldl (fun w e => perform e w) w es.

Section Cmd.
Variable cmdCB : list effect.
Variables session persist : bool.

Definition handleConn (failed : bool) (w : world) : world :=
  if negb session && (negb persist || failed)
  then log (Conn conn_destroy) (log (Conn conn_end) w)
  else w.

Definition fulfil (o : outcome) (w : world) : world :=
  log (Settled o) (World (outstanding w) (inner w) (Some o) (trace w)).

Definition rejected (err : jserror) (w : world) : world :=
  fulfil (Rejected err) (handleConn true w).

Definition resolved (val : value) (w : world) : world :=
  fulfil (Fulfilled val) (handleConn false w).

Definition drain (w : world) : world :=
  match inner w, outer w with
  | Some (Fulfilled val), None => resolved val w
  | Some (Rejected err), None => rejected err w
  | _, _ => w
  end.

Definition executor (w : world) : world :=
  if session then perform_all cmdCB w
  else log (Conn conn_connect)
         (log (Conn (conn_on "error"))
            (log (Conn (conn_on "end"))
               (log (Conn (conn_on "ready")) w))).

Definition cmd : world := drain (executor (World [] None None [])).

Definition dispatch (ev : event) (w : world) : world :=
  match ev with
  | emit s =>
      if session then w
      else match s with
           | ready => perform_all cmdCB w
           | end_ => perform (reject (JsError "Connection closed")) w
           | error err => perform (reject err) w
           end
  | fire i c =>
      match outstanding w !! i with
      | None => w
      | Some (r, cb) =>
          match transport r c with
          | None => w
          | Some a =>
              let rest := if persistent r then outstanding w
                          else delete i (outstanding w) in
              perform_all (apply cb a)
                (World rest (inner w) (outer w) (trace w))
          end
      end
  end.

Definition step (w : world) (ev : event) : world := drain (dispatch ev w).

Definition run (evs : list event) : world := foldl step cmd evs.
End Cmd.

Definition sftpCmd (compiledCallBack : closure) (session persist : bool)
  : list event -> world :=
  run [call conn_sftp compiledCallBack] session persist.

Definition ls (location : string) (session : bool) : list event -> world :=
  sftpCmd (lsCmd location) session false.

Definition stat (location : string) (session : bool) : list event -> world :=
  sftpCmd (statCmd location) session false.

Definition get (remote local : string) (session : bool) : list event -> world :=
  sftpCmd (getCmd remote local) session false.

Definition put (local remote : string) (session : bool) : list event -> world :=
  sftpCmd (putCmd local remote) session false.

Definition rm (location : string) (session : bool) : list event -> world :=
  sftpCmd (rmCmd location) session false.

Definition mv (src dest : string) (session : bool) : list event -> world :=
  sftpCmd (mvCmd src dest) session false.

Definition rmdir (path : string) (session : bool) : list event -> world :=
  sftpCmd (rmdirCmd path) session false.

Definition mkdir (path : string) (session : bool) : list event -> world :=
  sftpCmd (mkdirCmd path) session false.

Definition realpath (path : string) (session : bool) : list event -> world :=
  sftpCmd (realpathCmd path) session false.

Definition pwd (session : bool) : list event -> world :=
  realpath "." session.

Definition createReadStream (path : string) (session : bool)
  : list event -> world :=
  sftpCmd (createReadStreamCmd path session) session true.

Definition createWriteStream (path : string) (session : bool)
  : list event -> world :=
  sftpCmd (createWriteStreamCmd path session) session true.

(** The signals before an operation body starts. *)
Definition connected (session : bool) : list event :=
  if session then [] else [emit ready].

(** *** Reading a trace *)

Definition requested (x : obs) : option request :=
  match x with Called r => Some r | _ => None end.

Definition requests (t : list obs) : list request := omap requested t.

(** The conn.end() and conn.destroy() calls, of [cmd] and of the stream
    listeners alike. *)
Definition closing (x : obs) : option conn_call :=
  match x with
  | Conn conn_end | Called callback_conn_end => Some conn_end
  | Conn conn_destroy | Called callback_conn_destroy => Some conn_destroy
  | _ => None
  end.

Definition closings (t : list obs) : list conn_call := omap closing t.

(** What an operation made of one sftp call does: [r] is the call. *)
Definition one_call (op : bool -> list event -> world) (r : request) : Prop :=
  forall session err,
    (requests (trace (op session (connected session ++ [fire 0 succeeds; fire 0 succeeds])))
       = [conn_sftp; r] /\
     outer (op session (connected session ++ [fire 0 succeeds; fire 0 succeeds]))
       = Some (Fulfilled VTrue)) /\
    (requests (trace (op session (connected session ++ [fire 0 (fails err)])))
       = [conn_sftp] /\
     outer (op session (connected session ++ [fire 0 (fails err)]))
       = Some (Rejected err)) /\
    (requests (trace (op session (connected session ++ [fire 0 succeeds; fire 0 (fails err)])))
       = [conn_sftp; r] /\
     outer (op session (connected session ++ [fire 0 succeeds; fire 0 (fails err)]))
       = Some (Rejected err)).

(** The last byte createReadStream asks for, from the size the stat
    reported. *)
Definition stream_end (stats : Stats) : option Z :=
  match size stats with
  | Some n => if bool_decide (n > 0) then Some (n - 1) else Some n
  | None => None
  end.

(** A callback created by a method that was given a session. *)
Definition of_session (cb : closure) : Prop :=
  match cb with
  | createReadStreamCmd _ session | createReadStream_stat_cb _ session
  | createReadStream_created session | createReadStream_close_cb session
  | createReadStream_error_cb session
  | createWriteStreamCmd _ session | createWriteStream_created session
  | createWriteStream_close_cb session | createWriteStream_error_cb session =>
      session = true
  | _ => True
  end.

(** An effect that does not close the connection and hands over only
    callbacks of a method that was given a session. *)
Definition harmless (e : effect) : Prop :=
  match e with
  | call r cb => of_session cb /\ closing (Called r) = None
  | act r => closing (Called r) = None
  | _ => True
  end.

(** What holds of every world of an operation that was given a session:
    nothing has closed the connection, and no callback that could is
    outstanding. *)
Definition session_inv (w : world) : Prop :=
  closings (trace w) = [] /\
  Forall (fun rc : request * closure => of_session rc.2) (outstanding w).
End Fs.

(** ** Traces *)

Lemma invocations_app t1 t2 :
  invocations (t1 ++ t2) = invocations t1 ++ invocations t2.
Proof. apply omap_app. Qed.

Lemma settlements_app t1 t2 :
  settlements (t1 ++ t2) = settlements t1 ++ settlements t2.
Proof. apply omap_app. Qed.

Lemma closings_app t1 t2 : closings (t1 ++ t2) = closings t1 ++ closings t2.
Proof. apply omap_app. Qed.

Lemma conn_calls_app t1 t2 :
  conn_calls (t1 ++ t2) = conn_calls t1 ++ conn_calls t2.
Proof. apply omap_app. Qed.

Lemma closings_Settled o t : closings (Settled o :: t) = closings t.
Proof. reflexivity. Qed.

Lemma settlements_Settled o t : settlements (Settled o :: t) = o :: settlements t.
Proof. reflexivity. Qed.

Lemma invocations_Conn (l : list conn_call) : invocations (map Conn l) = [].
Proof. induction l; simpl; auto. Qed.

Lemma settlements_Conn (l : list conn_call) : settlements (map Conn l) = [].
Proof. induction l; simpl; auto. Qed.

Lemma closings_teardown session persist f :
  closings (map Conn (teardown session persist f)) = teardown session persist f.
Proof. unfold teardown. by destruct (negb session && (negb persist || f)). Qed.

Lemma head_app_Some {A} (l1 l2 : list A) x :
  head l1 = Some x -> head (l1 ++ l2) = Some x.
Proof. by destruct l1. Qed.

(** ** What every run of cmd satisfies *)

Section CmdFacts.
Context {closure : Type}.
Variable apply : closure -> args -> heap -> list (effect closure) * heap.
Variable cmdCB : heap -> list (effect closure) * heap.
Variables session persist : bool.

Implicit Types (w : world closure) (o : outcome) (t : list obs).

Local Abbreviation step_ := (step apply cmdCB session persist).
Local Abbreviation dispatch_ := (dispatch apply cmdCB session).
Local Abbreviation drain_ := (drain session persist).
Local Abbreviation run_ := (run apply cmdCB session persist).

Lemma tick_refl w : tick w w.
Proof.
  exists []. simpl. rewrite app_nil_r. by destruct (inner w).
Qed.

Lemma perform_tick e w : tick w (perform e w).
Proof.
  exists [e]. destruct e; simpl; repeat split; by destruct (inner w).
Qed.

Lemma perform_all_tick es w : tick w (perform_all es w).
Proof.
  exists es. revert w. induction es as [|e es IH]; intros w.
  - simpl. rewrite app_nil_r. by destruct (inner w).
  - destruct (IH (perform e w)) as (Ht & Hi & Ho).
    change (perform_all (e :: es) w) with (perform_all es (perform e w)).
    rewrite Ht, Hi, Ho.
    destruct e; simpl; rewrite <- ?app_assoc; simpl;
      repeat split; by destruct (inner w).
Qed.

Lemma invoke_tick body w : tick w (invoke body w).
Proof.
  unfold invoke. destruct (body (bufs w)) as [es h].
  apply (perform_all_tick es (with_bufs h w)).
Qed.

Lemma dispatch_tick ev w : tick w (dispatch_ ev w).
Proof.
  destruct ev as [s|i c]; unfold dispatch.
  - destruct session; [apply tick_refl|].
    destruct s; [apply invoke_tick | apply perform_tick ..].
  - destruct (outstanding w !! i) as [[r cb]|]; [|apply tick_refl].
    destruct (transport r c (bufs w)) as [[a h]|]; [|apply tick_refl].
    apply (invoke_tick (apply cb a)
             (with_outstanding _ (with_bufs h w))).
Qed.

Lemma effects_no_closing (es : list (effect closure)) :
  closings (map obs_of es) = [].
Proof. induction es as [|[] es IH]; simpl; auto. Qed.

Lemma effects_no_conn_call (es : list (effect closure)) :
  conn_calls (map obs_of es) = [].
Proof. induction es as [|[] es IH]; simpl; auto. Qed.

Lemma effects_no_settlement (es : list (effect closure)) :
  settlements (map obs_of es) = [].
Proof. induction es as [|[] es IH]; simpl; auto. Qed.

Lemma tick_unsettled w w' :
  tick w w' -> unsettled w -> unsettled w' \/ exists o, settling o w'.
Proof.
  intros (es & Ht & Hi & Ho) (Hin & Hout & Hinv & Hcl & Hst).
  rewrite Hin in Hi. rewrite Hout in Ho.
  assert (closings (trace w') = []) as Hcl'.
  { rewrite Ht, closings_app, Hcl. apply effects_no_closing. }
  assert (settlements (trace w') = []) as Hst'.
  { rewrite Ht, settlements_app, Hst. apply effects_no_settlement. }
  assert (invocations (trace w') = invocations (map obs_of es)) as Hinv'.
  { by rewrite Ht, invocations_app, Hinv. }
  destruct (head (invocations (map obs_of es))) as [o|] eqn:Hh.
  - right. exists o. repeat split; auto. by rewrite Hinv'.
  - left. repeat split; auto. rewrite Hinv'.
    by destruct (invocations (map obs_of es)).
Qed.

Lemma tick_settled o w w' : tick w w' -> settled session persist o w -> settled session persist o w'.
Proof.
  intros (es & Ht & Hi & Ho) (Hin & Hout & pre & post & Htr & H1 & H2 & H3 & H4 & H5).
  rewrite Hin in Hi. rewrite Hout in Ho.
  repeat split; auto.
  exists pre, (post ++ map obs_of es).
  rewrite Ht, Htr. rewrite <- !app_assoc. simpl.
  repeat split; auto.
  - rewrite closings_app, H4. apply effects_no_closing.
  - rewrite settlements_app, H5. apply effects_no_settlement.
Qed.

Lemma handleConn_trace f w :
  trace (handleConn session persist f w)
  = trace w ++ map Conn (teardown session persist f).
Proof.
  unfold handleConn, teardown.
  destruct (negb session && (negb persist || f)); simpl.
  - by rewrite <- app_assoc.
  - by rewrite app_nil_r.
Qed.

Lemma handleConn_inner f w : inner (handleConn session persist f w) = inner w.
Proof.
  unfold handleConn. by destruct (negb session && (negb persist || f)).
Qed.

Lemma drain_unsettled w : unsettled w -> drain_ w = w.
Proof. intros (Hin & _). unfold drain. by rewrite Hin. Qed.

Lemma drain_settled o w : settled session persist o w -> drain_ w = w.
Proof.
  intros (Hin & Hout & _). unfold drain. rewrite Hin, Hout.
  by destruct o.
Qed.

Lemma drain_settling o w : settling o w -> settled session persist o (drain_ w).
Proof.
  intros (Hin & Hout & Hh & Hcl & Hst).
  assert (drain_ w = fulfil o (handleConn session persist (failed o) w)) as ->.
  { unfold drain. rewrite Hin, Hout. by destruct o. }
  unfold fulfil. simpl. rewrite handleConn_inner, handleConn_trace.
  repeat split; auto.
  exists (trace w), []. repeat split; auto.
  simpl. by rewrite <- app_assoc.
Qed.

Lemma step_at_rest w ev : at_rest session persist w -> at_rest session persist (step_ w ev).
Proof.
  intros [Hu | [o Hs]]; unfold step.
  - destruct (tick_unsettled _ _ (dispatch_tick ev w) Hu) as [Hu' | [o Hs']].
    + left. by rewrite drain_unsettled.
    + right. exists o. by apply drain_settling.
  - right. exists o.
    pose proof (tick_settled _ _ _ (dispatch_tick ev w) Hs) as Hs'.
    by rewrite (drain_settled _ _ Hs').
Qed.

Lemma executor_tick w :
  unsettled w ->
  unsettled (executor cmdCB session w)
  \/ exists o, settling o (executor cmdCB session w).
Proof.
  intros Hu. unfold executor. destruct session.
  - apply (tick_unsettled w); [apply invoke_tick | done].
  - left. destruct Hu as (Hin & Hout & Hinv & Hcl & Hst).
    repeat split; simpl; auto; rewrite <- !app_assoc.
    + by rewrite invocations_app, Hinv.
    + by rewrite closings_app, Hcl.
    + by rewrite settlements_app, Hst.
Qed.

Lemma cmd_at_rest h : at_rest session persist (cmd cmdCB session persist h).
Proof.
  unfold cmd.
  destruct (executor_tick (World h [] None None [])) as [Hu | [o Hs]].
  - by repeat split.
  - left. by rewrite drain_unsettled.
  - right. exists o. by apply drain_settling.
Qed.

Lemma run_at_rest h evs : at_rest session persist (run_ h evs).
Proof.
  unfold run. generalize (cmd_at_rest h).
  generalize (cmd cmdCB session persist h). 
  induction evs as [|ev evs IH]; intros w Hw; simpl; auto.
  apply IH. by apply step_at_rest.
Qed.
End CmdFacts.

Section Session.
Context {closure : Type}.
Variable apply : closure -> args -> heap -> list (effect closure) * heap.
Variable cmdCB : heap -> list (effect closure) * heap.
Variable persist : bool.

Lemma tick_conn_calls (w w' : world closure) :
  tick w w' -> conn_calls (trace w') = conn_calls (trace w).
Proof.
  intros (es & -> & _). rewrite conn_calls_app, effects_no_conn_call.
  apply app_nil_r.
Qed.

Lemma drain_session_conn_calls (w : world closure) :
  conn_calls (trace (drain true persist w)) = conn_calls (trace w).
Proof.
  unfold drain. destruct (inner w) as [[val|err]|], (outer w); try done;
    cbn; rewrite conn_calls_app; apply app_nil_r.
Qed.

Lemma step_session_conn_calls (w : world closure) ev :
  conn_calls (trace (step apply cmdCB true persist w ev)) = conn_calls (trace w).
Proof.
  unfold step. rewrite drain_session_conn_calls.
  apply tick_conn_calls, dispatch_tick.
Qed.

Lemma run_session_conn_calls h evs :
  conn_calls (trace (run apply cmdCB true persist h evs)) = [].
Proof.
  unfold run.
  assert (conn_calls (trace (cmd cmdCB true persist h)) = []) as H0.
  { unfold cmd. rewrite drain_session_conn_calls.
    rewrite (tick_conn_calls (World h [] None None [])); [done|].
    apply invoke_tick. }
  revert H0. generalize (cmd cmdCB true persist h).
  induction evs as [|ev evs IH]; intros w Hw; [done|].
  simpl. apply IH. by rewrite step_session_conn_calls.
Qed.
End Session.

Section CmdClaims.
Context {closure : Type}.
Variable apply : closure -> args -> heap -> list (effect closure) * heap.
Variable cmdCB : heap -> list (effect closure) * heap.

Lemma run_settled_shape session persist h evs o :
  inner (run apply cmdCB session persist h evs) = Some o ->
  settled session persist o (run apply cmdCB session persist h evs).
Proof.
  intros Hin.
  destruct (run_at_rest apply cmdCB session persist h evs) as [Hu | [o' Hs]].
  - destruct Hu as (Hn & _). congruence.
  - destruct Hs as (Hin' & Hrest). 
    assert (o' = o) as -> by congruence. by split.
Qed.

(** C1: a connection that cmd created itself is closed with conn.end()
    followed by conn.destroy(), once, after the promise has settled,
    whenever persistence was not asked for or the operation failed; it is
    left open when persistence was asked for and the operation succeeded. *)
Theorem cmd_closes_its_own_connection persist h evs o :
  inner (run apply cmdCB false persist h evs) = Some o ->
  (persist = false \/ failed o = true ->
     closings (trace (run apply cmdCB false persist h evs))
       = [conn_end; conn_destroy] /\
     exists pre post,
       trace (run apply cmdCB false persist h evs)
         = pre ++ Conn conn_end :: Conn conn_destroy :: post /\
       head (invocations pre) = Some o) /\
  (persist = true /\ failed o = false ->
     closings (trace (run apply cmdCB false persist h evs)) = []).
Proof.
  intros Hin.
  destruct (run_settled_shape _ _ _ _ _ Hin)
    as (_ & _ & pre & post & Htr & Hh & Hc1 & _ & Hc2 & _).
  assert (closings (trace (run apply cmdCB false persist h evs))
          = teardown false persist (failed o)) as Hcl.
  { rewrite Htr, !closings_app, closings_Settled, Hc1, Hc2.
    rewrite closings_teardown. by rewrite app_nil_r. }
  split.
  - intros Hcase.
    assert (teardown false persist (failed o) = [conn_end; conn_destroy]) as Ht.
    { unfold teardown. destruct Hcase as [-> | ->]; simpl; auto.
      by destruct persist. }
    rewrite Hcl, Ht. split; auto.
    exists pre, (Settled o :: post). rewrite Htr, Ht. auto.
  - intros [-> Hok]. rewrite Hcl. unfold teardown. by rewrite Hok.
Qed.

(** C3: when the caller passed a session, cmd never calls conn.end() or
    conn.destroy() on it, whatever the operation does and however it ends;
    it calls no method of the connection at all. *)
Theorem cmd_never_closes_a_session persist h evs :
  closings (trace (run apply cmdCB true persist h evs)) = [] /\
  conn_calls (trace (run apply cmdCB true persist h evs)) = [].
Proof.
  split; [|apply run_session_conn_calls].
  destruct (run_at_rest apply cmdCB true persist h evs) as [Hu | [o Hs]].
  - by destruct Hu as (_ & _ & _ & Hc & _).
  - destruct Hs as (_ & _ & pre & post & Htr & _ & Hc1 & _ & Hc2 & _).
    by rewrite Htr, !closings_app, closings_Settled, Hc1, Hc2.
Qed.

(** C4 (amended): the promise settles at most once.  The first call of
    resolve or reject decides the outcome, the calls after it change
    nothing, and the promise cmd returns settles exactly once, with that
    outcome, if there was such a call and never otherwise. *)
Theorem cmd_settles_at_most_once session persist h evs :
  inner (run apply cmdCB session persist h evs)
    = head (invocations (trace (run apply cmdCB session persist h evs))) /\
  outer (run apply cmdCB session persist h evs)
    = inner (run apply cmdCB session persist h evs) /\
  settlements (trace (run apply cmdCB session persist h evs))
    = option_list (inner (run apply cmdCB session persist h evs)).
Proof.
  destruct (run_at_rest apply cmdCB session persist h evs) as [Hu | [o Hs]].
  - destruct Hu as (Hin & Hout & Hinv & _ & Hst).
    by rewrite Hin, Hout, Hinv, Hst.
  - destruct Hs as (Hin & Hout & pre & post & Htr & Hh & _ & Hs1 & _ & Hs2).
    rewrite Hin, Hout, Htr. repeat split.
    + rewrite invocations_app. symmetry. by apply head_app_Some.
    + by rewrite !settlements_app, settlements_Settled, Hs1, Hs2,
           settlements_Conn.
Qed.

(** C6: once the operation has called resolve or reject, the calls decided
    by handleConn come first and the promise cmd returns settles right
    after them, with the value or error of that first call, unchanged. *)
Theorem cmd_tears_down_then_settles session persist h evs o :
  head (invocations (trace (run apply cmdCB session persist h evs))) = Some o ->
  outer (run apply cmdCB session persist h evs) = Some o /\
  exists pre post,
    trace (run apply cmdCB session persist h evs)
      = pre ++ map Conn (teardown session persist (failed o))
            ++ Settled o :: post /\
    head (invocations pre) = Some o /\
    closings pre = [] /\ settlements pre = [] /\
    closings post = [] /\ settlements post = [].
Proof.
  intros Hh.
  destruct (run_at_rest apply cmdCB session persist h evs) as [Hu | [o' Hs]].
  - destruct Hu as (_ & _ & Hinv & _). by rewrite Hinv in Hh.
  - destruct Hs as (Hin & Hout & pre & post & Htr & Hh' & Hrest).
    assert (o' = o) as ->.
    { rewrite Htr, invocations_app in Hh.
      rewrite (head_app_Some _ _ _ Hh') in Hh. congruence. }
    split; [done|]. by exists pre, post.
Qed.
End CmdClaims.

(** C4: after a command has succeeded and cmd has closed the connection,
    ssh2 reports the end of the connection and the listener cmd installed
    calls reject: both resolve and reject have been invoked. *)
Lemma execCmd_invokes_resolve_and_reject :
  invocations (trace (execCmd "true" false false []
     [emit ready; fire 0 succeeds; fire 0 (exits 0); emit end_]))
    = [Fulfilled VTrue; Rejected (JsError "Connection closed")] /\
  ~ invoked_exactly_once (execCmd "true" false false []
     [emit ready; fire 0 succeeds; fire 0 (exits 0); emit end_]).
Proof. split; [reflexivity | discriminate]. Qed.

Lemma cmd_closes_its_own_connection_witness :
  inner (execCmd "true" false false []
           [emit ready; fire 0 succeeds; fire 0 (exits 0)])
    = Some (Fulfilled VTrue) /\
  closings (trace (execCmd "true" false false []
           [emit ready; fire 0 succeeds; fire 0 (exits 0)]))
    = [conn_end; conn_destroy].
Proof.
  split; [reflexivity|].
  refine (proj1 (proj1 (cmd_closes_its_own_connection apply _ false []
            [emit ready; fire 0 succeeds; fire 0 (exits 0)]
            (Fulfilled VTrue) _) _)).
  - reflexivity.
  - left. reflexivity.
Defined.

Lemma cmd_tears_down_then_settles_witness :
  outer (execCmd "false" false true []
           [emit ready; fire 0 succeeds; fire 0 (exits 1)])
    = Some (Rejected (JsError "none zero exit code")).
Proof.
  refine (proj1 (cmd_tears_down_then_settles apply _ false true []
            [emit ready; fire 0 succeeds; fire 0 (exits 1)]
            (Rejected (JsError "none zero exit code")) _)).
  reflexivity.
Defined.

(** ** execCmd *)



(** ** getStream and putStream *)

(** C10: getStream and putStream look at the stream they were given before
    they look at the error of conn.sftp: with a stream that is not writable
    (not readable) the promise rejects with 'Stream must be a writable
    stream' ('Stream must be a readable stream'), also when opening the
    sub-channel failed with another error. *)
Theorem stream_check_precedes_sftp_error path session h err :
  outer (getStream path false session h
           (connected session ++ [fire 0 (fails err)]))
    = Some (Rejected (JsError "Stream must be a writable stream")) /\
  outer (getStream path false session h
           (connected session ++ [fire 0 succeeds]))
    = Some (Rejected (JsError "Stream must be a writable stream")) /\
  outer (putStream path false session h
           (connected session ++ [fire 0 (fails err)]))
    = Some (Rejected (JsError "Stream must be a readable stream")) /\
  outer (putStream path false session h
           (connected session ++ [fire 0 succeeds]))
    = Some (Rejected (JsError "Stream must be a readable stream")) /\
  outer (getStream path true session h
           (connected session ++ [fire 0 (fails err)]))
    = Some (Rejected err) /\
  outer (putStream path true session h
           (connected session ++ [fire 0 (fails err)]))
    = Some (Rejected err).
Proof. by destruct session. Qed.

(** ** putBuffer *)

Lemma putBuffer_success buffer location session h handle :
  putBuffer buffer location session h (connected session ++ putBuffer_replies handle)
  = World h [] (Some (Fulfilled VTrue)) (Some (Fulfilled VTrue))
      (map Conn (if session then []
                 else [conn_on "ready"; conn_on "end"; conn_on "error"; conn_connect])
       ++ [Called conn_sftp; Called (sftp_open location "w");
           Called (sftp_write handle buffer 0 (Buffer_length buffer h) 0);
           Called (sftp_close handle); Resolve VTrue]
       ++ map Conn (teardown session false false)
       ++ [Settled (Fulfilled VTrue)]).
Proof. by destruct session. Qed.

(** ** getBuffer *)

Lemma getBuffer_empty location session h handle :
  getBuffer location session h (connected session ++ getBuffer_opening handle 0)
  = World (h ++ [[]]) [] (Some (Fulfilled (VBuffer (length h))))
      (Some (Fulfilled (VBuffer (length h))))
      (map Conn (if session then []
                 else [conn_on "ready"; conn_on "end"; conn_on "error"; conn_connect])
       ++ [Called conn_sftp; Called (sftp_open location "r");
           Called (sftp_fstat handle); Resolve (VBuffer (length h))]
       ++ map Conn (teardown session false false)
       ++ [Settled (Fulfilled (VBuffer (length h)))]).
Proof. by destruct session. Qed.

(** ** Running a callback, symbolically *)

(** Unfold the bookkeeping of a callback that has been run. *)
Ltac expose_world :=
  cbv [perform_all foldl perform log settle with_outstanding with_bufs
       drain resolved rejected fulfil handleConn negb andb orb
       bufs outstanding inner outer trace];
  cbn [app].

Lemma run_app {closure : Type} apply cmdCB session persist h evs1 evs2 :
  run (closure := closure) apply cmdCB session persist h (evs1 ++ evs2)
  = foldl (step apply cmdCB session persist)
      (run apply cmdCB session persist h evs1) evs2.
Proof. unfold run. apply foldl_app. Qed.

Lemma step_fire_first {closure : Type} apply cmdCB session persist
    h r (cb : closure) rest t c a h' es h'' :
  transport r c h = Some (a, h') ->
  persistent r = false ->
  apply cb a h' = (es, h'') ->
  step apply cmdCB session persist (World h ((r, cb) :: rest) None None t) (fire 0 c)
  = drain session persist (perform_all es (World h'' rest None None t)).
Proof.
  intros Htr Hp Hap. unfold step, dispatch. simpl.
  rewrite Htr, Hp. unfold invoke. simpl. by rewrite Hap.
Qed.

Lemma write_at_zeros (written chunk : list byte) (n : nat) :
  (length chunk <= n)%nat ->
  write_at (length written) chunk (written ++ replicate n Byte.x00)
  = (written ++ chunk) ++ replicate (n - length chunk) Byte.x00.
Proof.
  intros Hle. unfold write_at.
  rewrite take_app_length, drop_app_add', drop_replicate by done.
  by rewrite <- app_assoc.
Qed.

Lemma transport_read h handle (written chunk : list byte) (n : nat) bytes :
  (length chunk <= n)%nat ->
  Z.of_nat (length chunk) <= bytes ->
  transport
    (sftp_read handle (length h) (Z.of_nat (length written)) bytes
       (Z.of_nat (length written)))
    (gives_data chunk) (h ++ [written ++ replicate n Byte.x00])
  = Some (a_read (Z.of_nat (length chunk)) (length h) (Z.of_nat (length written)),
          h ++ [(written ++ chunk) ++ replicate (n - length chunk) Byte.x00]).
Proof.
  intros Hle Hb. unfold transport.
  rewrite list_lookup_middle by done. simpl.
  rewrite Nat2Z.id.
  assert (fits (length written) chunk bytes (written ++ replicate n Byte.x00) = true)
    as ->.
  { unfold fits. rewrite !bool_decide_true; [done| |done].
    rewrite length_app, length_replicate. lia. }
  rewrite write_at_zeros by done.
  f_equal. f_equal.
  rewrite insert_app_r_alt by done. by rewrite Nat.sub_diag.
Qed.

(** A read whose callback is handed the position it was issued for. *)
Lemma transport_read_echo handle buffer offset len position chunk h :
  transport (sftp_read handle buffer offset len position)
    (gives_data_at chunk position) h
  = transport (sftp_read handle buffer offset len position) (gives_data chunk) h.
Proof. reflexivity. Qed.


(** One pass of [cb], whatever position the callback is handed: the chunk is
    in the buffer, and the next read starts at the position handed over plus
    the bytes read. *)
Lemma getBuffer_cb_reported location session hp handle buffer (b chunk : list byte)
    offset bytes asked reported t :
  hp !! buffer = Some b ->
  fits (Z.to_nat offset) chunk bytes b = true ->
  sftp_step (getBufferCmd location) session false
    (World hp
       [(sftp_read handle buffer offset bytes asked,
         getBuffer_cb handle buffer bytes)]
       None None t)
    (fire 0 (gives_data_at chunk reported))
  = let next :=
      if bool_decide (bytes - Z.of_nat (length chunk) < 1)
      then (sftp_close handle, getBuffer_close_cb buffer)
      else (sftp_read handle buffer (reported + Z.of_nat (length chunk))
              (bytes - Z.of_nat (length chunk))
              (reported + Z.of_nat (length chunk)),
            getBuffer_cb handle buffer (bytes - Z.of_nat (length chunk))) in
    World (<[buffer := write_at (Z.to_nat offset) chunk b]> hp)
      [next] None None (t ++ [Called next.1]).
Proof.
  intros Hb Hfits. unfold sftp_step.
  assert (transport (sftp_read handle buffer offset bytes asked)
            (gives_data_at chunk reported) hp
          = Some (a_read (Z.of_nat (length chunk)) buffer reported,
                  <[buffer := write_at (Z.to_nat offset) chunk b]> hp)) as Htr.
  { unfold transport. rewrite Hb. simpl. by rewrite Hfits. }
  destruct (decide (bytes - Z.of_nat (length chunk) < 1)) as [Hlt|Hge].
  - erewrite step_fire_first; [|exact Htr|done|].
    2:{ simpl. rewrite bool_decide_true by done. reflexivity. }
    by rewrite bool_decide_true by done.
  - erewrite step_fire_first; [|exact Htr|done|].
    2:{ simpl. rewrite bool_decide_false by done. reflexivity. }
    by rewrite bool_decide_false by done.
Qed.

Section GetBufferLoop.
Variables (location : string) (session : bool) (h : heap) (handle : fd).

Local Abbreviation gstep :=
  (step apply (fun h => ([call conn_sftp (getBufferCmd location)], h)) session false).

Local Abbreviation started :=
  (map Conn (if session then []
             else [conn_on "ready"; conn_on "end"; conn_on "error"; conn_connect])
   ++ [Called conn_sftp; Called (sftp_open location "r"); Called (sftp_fstat handle)]).

Lemma getBuffer_at_fstat :
  getBuffer location session h
    (connected session ++ [fire 0 succeeds; fire 0 (gives_handle handle)])
  = World h [(sftp_fstat handle, getBuffer_fstat_cb handle)] None None started.
Proof. by destruct session. Qed.

Lemma getBuffer_first_read (n : nat) :
  (0 < n)%nat ->
  getBuffer location session h
    (connected session ++ getBuffer_opening handle (Z.of_nat n))
  = World (h ++ [replicate n Byte.x00])
      [(sftp_read handle (length h) 0 (Z.of_nat n) 0,
        getBuffer_cb handle (length h) (Z.of_nat n))]
      None None
      (started ++ [Called (sftp_read handle (length h) 0 (Z.of_nat n) 0)]).
Proof.
  intros Hn. unfold getBuffer_opening.
  change [fire 0 succeeds; fire 0 (gives_handle handle); fire 0 (gives_size (Z.of_nat n))]
    with ([fire 0 succeeds; fire 0 (gives_handle handle)]
          ++ [fire 0 (gives_size (Z.of_nat n))]).
  rewrite app_assoc. unfold getBuffer, sftpCmd. rewrite run_app.
  fold (sftpCmd (getBufferCmd location) session false).
  fold (getBuffer location session).
  rewrite getBuffer_at_fstat. simpl.
  erewrite step_fire_first; [| |done|].
  2:{ simpl. rewrite bool_decide_true by lia. reflexivity. }
  2:{ simpl. rewrite bool_decide_false by lia. reflexivity. }
  simpl. unfold drain, Buffer_fill0, log, with_outstanding. simpl.
  rewrite Nat2Z.id.
  rewrite alter_app_r_alt by done. rewrite Nat.sub_diag. simpl.
  by rewrite length_replicate.
Qed.

(** One pass of [cb]. *)
Lemma getBuffer_cb_step (written chunk : list byte) (n : nat) t :
  (length chunk <= n)%nat ->
  gstep
    (World (h ++ [written ++ replicate n Byte.x00])
       [(sftp_read handle (length h) (Z.of_nat (length written)) (Z.of_nat n)
           (Z.of_nat (length written)),
         getBuffer_cb handle (length h) (Z.of_nat n))]
       None None t)
    (fire 0 (gives_data chunk))
  = let next :=
      if bool_decide (n - length chunk < 1)%nat
      then (sftp_close handle, getBuffer_close_cb (length h))
      else (sftp_read handle (length h) (Z.of_nat (length (written ++ chunk)))
              (Z.of_nat (n - length chunk))
              (Z.of_nat (length (written ++ chunk))),
            getBuffer_cb handle (length h) (Z.of_nat (n - length chunk))) in
    World (h ++ [(written ++ chunk) ++ replicate (n - length chunk) Byte.x00])
      [next] None None (t ++ [Called next.1]).
Proof.
  intros Hle.
  destruct (decide (n - length chunk < 1)%nat) as [Hlt|Hge].
  - erewrite step_fire_first; [|by apply (transport_read _ _ _ _ n); [|lia]|done|].
    2:{ simpl. rewrite bool_decide_true by lia. reflexivity. }
    by rewrite bool_decide_true by done.
  - erewrite step_fire_first; [|by apply (transport_read _ _ _ _ n); [|lia]|done|].
    2:{ simpl. rewrite bool_decide_false by lia. reflexivity. }
    rewrite bool_decide_false by done.
    replace (Z.of_nat n - Z.of_nat (length chunk)) with (Z.of_nat (n - length chunk))
      by lia.
    replace (Z.of_nat (length written) + Z.of_nat (length chunk))
      with (Z.of_nat (length (written ++ chunk))) by (rewrite length_app; lia).
    done.
Qed.

Lemma getBuffer_loop (last : list byte) (chunks : list (list byte)) :
  last <> [] ->
  forall (written : list byte) t,
  foldl gstep
    (World (h ++ [written ++ replicate (length (concat (chunks ++ [last]))) Byte.x00])
       [(sftp_read handle (length h) (Z.of_nat (length written))
           (Z.of_nat (length (concat (chunks ++ [last]))))
           (Z.of_nat (length written)),
         getBuffer_cb handle (length h)
           (Z.of_nat (length (concat (chunks ++ [last])))))]
       None None
       (t ++ [Called (sftp_read handle (length h) (Z.of_nat (length written))
                 (Z.of_nat (length (concat (chunks ++ [last]))))
                 (Z.of_nat (length written)))]))
    (deliver (chunks ++ [last]))
  = World (h ++ [written ++ concat (chunks ++ [last])])
      [(sftp_close handle, getBuffer_close_cb (length h))] None None
      (t ++ map Called
              (reads_from handle (length h) (Z.of_nat (length written))
                 (Z.of_nat (length (concat (chunks ++ [last]))))
                 (chunks ++ [last]))
         ++ [Called (sftp_close handle)]).
Proof.
  intros Hlast. induction chunks as [|chunk chunks IH]; intros written t.
  - simpl. rewrite app_nil_r.
    rewrite getBuffer_cb_step by done.
    rewrite Nat.sub_diag. simpl. by rewrite <- !app_assoc, app_nil_r.
  - change (deliver ((chunk :: chunks) ++ [last]))
      with (fire 0 (gives_data chunk) :: deliver (chunks ++ [last])).
    change (concat ((chunk :: chunks) ++ [last]))
      with (chunk ++ concat (chunks ++ [last])).
    cbn [foldl]. rewrite length_app.
    rewrite getBuffer_cb_step by lia.
    assert (0 < length (concat (chunks ++ [last])))%nat as Hpos.
    { rewrite concat_app, length_app. simpl. rewrite app_nil_r.
      destruct last; [done|]. simpl. lia. }
    rewrite bool_decide_false by lia. cbn [fst].
    replace (length chunk + length (concat (chunks ++ [last])) - length chunk)%nat
      with (length (concat (chunks ++ [last]))) by lia.
    rewrite IH. rewrite <- !app_assoc. cbn [reads_from map app].
    repeat f_equal; rewrite ?length_app; lia.
Qed.
End GetBufferLoop.

Lemma requests_app t1 t2 : requests (t1 ++ t2) = requests t1 ++ requests t2.
Proof. apply omap_app. Qed.

Lemma requests_Called (rs : list request) : requests (map Called rs) = rs.
Proof. induction rs as [|r rs IH]; simpl; [done|]. by f_equal. Qed.

Lemma requests_Conn (l : list conn_call) : requests (map Conn l) = [].
Proof. induction l; simpl; auto. Qed.

Lemma getBuffer_success location session h handle chunks last :
  last <> [] ->
  getBuffer location session h
    (connected session
     ++ getBuffer_opening handle (Z.of_nat (length (concat (chunks ++ [last]))))
     ++ deliver (chunks ++ [last]) ++ [fire 0 succeeds])
  = World (h ++ [concat (chunks ++ [last])]) []
      (Some (Fulfilled (VBuffer (length h))))
      (Some (Fulfilled (VBuffer (length h))))
      (map Conn (if session then []
                 else [conn_on "ready"; conn_on "end"; conn_on "error"; conn_connect])
       ++ [Called conn_sftp; Called (sftp_open location "r");
           Called (sftp_fstat handle)]
       ++ map Called (reads_from handle (length h) 0
                        (Z.of_nat (length (concat (chunks ++ [last]))))
                        (chunks ++ [last]))
       ++ [Called (sftp_close handle); Resolve (VBuffer (length h))]
       ++ map Conn (teardown session false false)
       ++ [Settled (Fulfilled (VBuffer (length h)))]).
Proof.
  intros Hlast.
  assert (0 < length (concat (chunks ++ [last])))%nat as Hpos.
  { rewrite concat_app, length_app. simpl. rewrite app_nil_r.
    destruct last; [done|]. simpl. lia. }
  rewrite (app_assoc (connected session)).
  unfold getBuffer, sftpCmd. rewrite run_app, foldl_app.
  fold (sftpCmd (getBufferCmd location) session false).
  fold (getBuffer location session).
  rewrite getBuffer_first_read by done.
  rewrite (getBuffer_loop location session h handle last chunks Hlast [] _).
  cbn [foldl].
  erewrite step_fire_first; [|done|done|].
  2:{ simpl. reflexivity. }
  rewrite <- !app_assoc.
  destruct session; simpl;
    unfold drain, settle, resolved, fulfil, handleConn, log; simpl;
    by rewrite <- !app_assoc.
Qed.

(** The claim of C2 fails when ssh2 hands the read callback another position
    than the one the read was issued for: the first read of a 70000-byte
    file delivers 32952 bytes and its callback is handed position 31952 (the
    start of the last part ssh2 split the read into).  [cb] adds the bytes
    read to that position, so the second read starts at 64904, not at the
    32952 bytes read so far. *)
Lemma getBuffer_offset_follows_reported_position :
  filter is_read (requests (trace (getBuffer "/tmp/f" false []
       (connected false ++ getBuffer_opening 7 70000
        ++ [fire 0 (gives_data_at (replicate (Z.to_nat 32952) Byte.x61) 31952)]))))
  = [sftp_read 7 0 0 70000 0; sftp_read 7 0 64904 37048 64904] /\
  filter is_read (requests (trace (getBuffer "/tmp/f" false []
       (connected false ++ getBuffer_opening 7 70000
        ++ [fire 0 (gives_data_at (replicate (Z.to_nat 32952) Byte.x61) 31952)]))))
  <> reads_from 7 0 0 70000 [replicate (Z.to_nat 32952) Byte.x61; []].
Proof.
  assert (filter is_read (requests (trace (getBuffer "/tmp/f" false []
       (connected false ++ getBuffer_opening 7 70000
        ++ [fire 0 (gives_data_at (replicate (Z.to_nat 32952) Byte.x61) 31952)]))))
    = [sftp_read 7 0 0 70000 0; sftp_read 7 0 64904 37048 64904]) as ->
    by (vm_compute; reflexivity).
  split; [reflexivity|].
  cbn [reads_from]. rewrite length_replicate, Z2Nat.id by lia.
  by intros [=].
Qed.

(** C2: the loop of getBuffer takes the next offset from its callback:
    whatever position a read callback is handed, the next read starts at
    that position plus the bytes read and asks for the bytes still missing,
    and once nothing is missing the file handle is closed.  When every read
    callback is handed the position its read was issued for, the file has as
    many bytes as the chunks of [chunks ++ [last]] together and the
    successive reads deliver these chunks (any lengths, the last one not
    empty), getBuffer asks for the sub-channel, opens and stats the file,
    issues exactly the reads of [reads_from] (each at the offset reached so
    far, for all that is still missing), closes the file handle and resolves
    with the buffer, which then holds the chunks in order.  For a file of
    size 0 it resolves an empty buffer and issues no read. *)
Theorem getBuffer_reads_in_chunks location session h handle chunks last :
  last <> [] ->
  (forall hp buffer (b chunk : list byte) offset bytes asked reported t,
     hp !! buffer = Some b ->
     fits (Z.to_nat offset) chunk bytes b = true ->
     sftp_step (getBufferCmd location) session false
       (World hp
          [(sftp_read handle buffer offset bytes asked,
            getBuffer_cb handle buffer bytes)]
          None None t)
       (fire 0 (gives_data_at chunk reported))
     = let next :=
         if bool_decide (bytes - Z.of_nat (length chunk) < 1)
         then (sftp_close handle, getBuffer_close_cb buffer)
         else (sftp_read handle buffer (reported + Z.of_nat (length chunk))
                 (bytes - Z.of_nat (length chunk))
                 (reported + Z.of_nat (length chunk)),
               getBuffer_cb handle buffer (bytes - Z.of_nat (length chunk))) in
       World (<[buffer := write_at (Z.to_nat offset) chunk b]> hp)
         [next] None None (t ++ [Called next.1])) /\
  (requests (trace (getBuffer location session h
       (connected session ++ getBuffer_replies handle (chunks ++ [last]))))
   = [conn_sftp; sftp_open location "r"; sftp_fstat handle]
     ++ reads_from handle (length h) 0
          (Z.of_nat (length (concat (chunks ++ [last])))) (chunks ++ [last])
     ++ [sftp_close handle] /\
   outer (getBuffer location session h
       (connected session ++ getBuffer_replies handle (chunks ++ [last])))
   = Some (Fulfilled (VBuffer (length h))) /\
   bufs (getBuffer location session h
       (connected session ++ getBuffer_replies handle (chunks ++ [last])))
     !! length h
   = Some (concat (chunks ++ [last]))) /\
  (filter is_read (requests (trace (getBuffer location session h
       (connected session ++ getBuffer_opening handle 0)))) = [] /\
   outer (getBuffer location session h
       (connected session ++ getBuffer_opening handle 0))
   = Some (Fulfilled (VBuffer (length h))) /\
   bufs (getBuffer location session h
       (connected session ++ getBuffer_opening handle 0)) !! length h
   = Some []).
Proof.
  intros Hlast. split; [|split].
  - intros hp buffer b chunk offset bytes asked reported t Hb Hfits.
    by apply getBuffer_cb_reported.
  - unfold getBuffer_replies.
    rewrite getBuffer_success by done. cbn [trace outer bufs].
    split; [|split; [done|by apply list_lookup_middle]].
    by rewrite !requests_app, !requests_Conn, requests_Called.
  - rewrite getBuffer_empty. cbn [trace outer bufs].
    split; [|split; [done|by apply list_lookup_middle]].
    rewrite !requests_app, !requests_Conn. reflexivity.
Qed.

Lemma getBuffer_reads_in_chunks_witness :
  requests (trace (getBuffer "/tmp/f" false []
       (connected false
        ++ getBuffer_replies 7 ([[Byte.x61]; []] ++ [[Byte.x62; Byte.x63]]))))
   = [conn_sftp; sftp_open "/tmp/f" "r"; sftp_fstat 7;
      sftp_read 7 0 0 3 0; sftp_read 7 0 1 2 1; sftp_read 7 0 1 2 1;
      sftp_close 7].
Proof.
  refine (proj1 (proj1 (proj2 (getBuffer_reads_in_chunks "/tmp/f" false [] 7
            [[Byte.x61]; []] [Byte.x62; Byte.x63] _)))).
  discriminate.
Defined.

(** C9: for a file of size 0 getBuffer resolves the empty buffer straight
    from the fstat callback.  It has opened the file but never calls
    sftp.close on the handle, and no callback is left that could: only the
    connection is torn down. *)
Theorem getBuffer_empty_file_not_closed location session h handle :
  requests (trace (getBuffer location session h
       (connected session ++ getBuffer_opening handle 0)))
    = [conn_sftp; sftp_open location "r"; sftp_fstat handle] /\
  outstanding (getBuffer location session h
       (connected session ++ getBuffer_opening handle 0)) = [] /\
  invocations (trace (getBuffer location session h
       (connected session ++ getBuffer_opening handle 0)))
    = [Fulfilled (VBuffer (length h))] /\
  bufs (getBuffer location session h
       (connected session ++ getBuffer_opening handle 0)) !! length h = Some [] /\
  closings (trace (getBuffer location session h
       (connected session ++ getBuffer_opening handle 0)))
    = teardown session false false.
Proof.
  rewrite getBuffer_empty. cbn [trace outstanding bufs].
  repeat split.
  - rewrite !requests_app, !requests_Conn. reflexivity.
  - by destruct session.
  - by apply list_lookup_middle.
  - by destruct session.
Qed.

(** ** The operations against the server *)

Section AgainstServer.
Variable grant : Z -> Z -> nat.
Variable report : Z -> Z -> Z.







End AgainstServer.




Section PutBufferAlways.
Variables (buffer : ref) (location : string) (session : bool) (h : heap).

Local Abbreviation pstep :=
  (step apply (fun h => ([call conn_sftp (putBufferCmd buffer location)], h))
     session false).

Lemma pending_writes_delete i (l : list (request * closure)) r cb :
  l !! i = Some (r, cb) ->
  (pending_writes (delete i l) + writes_ahead cb = pending_writes l)%nat.
Proof.
  revert i. induction l as [|x l IH]; intros [|i] Hl; simplify_eq/=.
  - unfold pending_writes. simpl. lia.
  - specialize (IH _ Hl). unfold pending_writes in *. simpl. lia.
Qed.

(** What a callback of putBuffer does when ssh2 calls it. *)
Lemma putBuffer_callback r cb c a h' :
  of_putBuffer buffer (r, cb) ->
  transport r c h = Some (a, h') ->
  h' = h /\ persistent r = false /\
  (apply cb a h = ([], h) \/
   (exists err, apply cb a h = ([reject err], h)) \/
   apply cb a h = ([resolve VTrue], h) \/
   exists r' cb',
     apply cb a h = ([call r' cb'], h) /\
     of_putBuffer buffer (r', cb') /\ whole_buffer_write buffer h r' /\
     is_sftp r' = false /\
     ((if is_write r' then 1 else 0) + writes_ahead cb' <= writes_ahead cb)%nat).
Proof.
  intros Hgood Htr.
  destruct r, cb; simpl in Hgood; try done; subst;
    destruct c; simplify_eq/=; (split; [done|split; [done|]]); eauto 10;
    right; right; right; eexists _, _; (split; [reflexivity|]); simpl;
    repeat split; auto.
Qed.

Lemma putBuffer_inv_log x (w : world closure) :
  requested x = None -> putBuffer_inv buffer h w -> putBuffer_inv buffer h (log x w).
Proof.
  intros Hx (Hb & Ho & Hw & Hc). unfold putBuffer_inv. cbn [log bufs outstanding trace].
  rewrite requests_app. simpl. rewrite Hx, app_nil_r. done.
Qed.

Lemma putBuffer_inv_drain (w : world closure) :
  putBuffer_inv buffer h w -> putBuffer_inv buffer h (drain session false w).
Proof.
  intros Hinv. unfold drain.
  destruct (inner w) as [[val|err]|], (outer w); try done;
    unfold resolved, rejected, fulfil, handleConn;
    destruct (negb session && _);
    repeat (apply putBuffer_inv_log; [done|]);
    by destruct Hinv as (? & ? & ? & ?).
Qed.

Lemma putBuffer_inv_settle o (w : world closure) :
  putBuffer_inv buffer h w -> putBuffer_inv buffer h (settle o w).
Proof. done. Qed.

Lemma putBuffer_inv_effects (w : world closure) es (k : nat) :
  bufs w = h ->
  Forall (of_putBuffer buffer) (outstanding w) ->
  Forall (whole_buffer_write buffer h) (requests (trace w)) ->
  (length (filter is_write (requests (trace w))) + pending_writes (outstanding w) + k
   <= length (filter is_sftp (requests (trace w))))%nat ->
  (es = [] \/
   (exists err, es = [reject err]) \/
   es = [resolve VTrue] \/
   exists r' cb',
     es = [call r' cb'] /\
     of_putBuffer buffer (r', cb') /\ whole_buffer_write buffer h r' /\
     is_sftp r' = false /\
     ((if is_write r' then 1 else 0) + writes_ahead cb' <= k)%nat) ->
  putBuffer_inv buffer h (perform_all es w).
Proof.
  intros Hb Ho Hw Hc [->|[[err ->]|[->|(r' & cb' & -> & Hgood & Hwhole & Hs & Hk)]]].
  - repeat split; auto. simpl. lia.
  - apply putBuffer_inv_settle, putBuffer_inv_log; [done|].
    repeat split; auto. lia.
  - apply putBuffer_inv_settle, putBuffer_inv_log; [done|].
    repeat split; auto. lia.
  - unfold putBuffer_inv. cbn [perform_all foldl perform with_outstanding log
                               bufs outstanding trace].
    rewrite requests_app. cbn [requests omap requested].
    rewrite !filter_app, !length_app.
    split; [done|]. split; [by apply Forall_app; split; [|repeat constructor]|].
    split; [by apply Forall_app; split; [|repeat constructor]|].
    unfold pending_writes in *. rewrite sum_list_with_app.
    change (requests [Called r']) with [r'].
    clear Hgood Hwhole. destruct r'; simpl in *; try done; lia.
Qed.

Lemma putBuffer_inv_step (w : world closure) ev :
  putBuffer_inv buffer h w -> putBuffer_inv buffer h (pstep w ev).
Proof.
  intros Hinv. apply putBuffer_inv_drain.
  destruct Hinv as (Hb & Ho & Hw & Hc).
  destruct ev as [s|i c]; unfold dispatch.
  - destruct session; [done|]. destruct s.
    + unfold invoke, putBuffer_inv.
      cbn [perform_all foldl perform with_outstanding with_bufs log
           bufs outstanding trace].
      rewrite requests_app. cbn [requests omap requested].
      rewrite !filter_app, !length_app.
      split; [done|]. split; [by apply Forall_app; split; [|repeat constructor]|].
      split; [by apply Forall_app; split; [|repeat constructor]|].
      unfold pending_writes in *. rewrite sum_list_with_app. simpl. lia.
    + apply putBuffer_inv_settle, putBuffer_inv_log; [done|]. by repeat split.
    + apply putBuffer_inv_settle, putBuffer_inv_log; [done|]. by repeat split.
  - destruct (outstanding w !! i) as [[r cb]|] eqn:Hi; [|by repeat split].
    destruct (transport r c (bufs w)) as [[a h']|] eqn:Htr; [|by repeat split].
    rewrite Hb in Htr.
    assert (of_putBuffer buffer (r, cb)) as Hgood.
    { eapply Forall_lookup_1; eauto. }
    destruct (putBuffer_callback r cb c a h' Hgood Htr) as (-> & -> & Hes).
    pose proof (pending_writes_delete _ _ _ _ Hi) as Hdel.
    unfold invoke. cbn [with_outstanding with_bufs bufs].
    destruct (apply cb a h) as [es h''] eqn:Hap.
    assert (h'' = h) as ->.
    { destruct Hes as [?|[[? ?]|[?|(? & ? & ? & _)]]]; congruence. }
    apply (putBuffer_inv_effects _ es (writes_ahead cb));
      unfold with_bufs, with_outstanding; cbn [bufs outstanding trace].
    + done.
    + by apply Forall_delete.
    + done.
    + lia.
    + destruct Hes as [?|[[err ?]|[?|(r' & cb' & ? & ?)]]]; simplify_eq; eauto 10.
Qed.

Lemma putBuffer_inv_run evs :
  bufs (putBuffer buffer location session h evs) = h /\
  putBuffer_inv buffer h (putBuffer buffer location session h evs).
Proof.
  assert (putBuffer_inv buffer h (putBuffer buffer location session h evs)) as Hinv.
  { unfold putBuffer, sftpCmd, run.
    assert (putBuffer_inv buffer h
              (cmd (fun h0 => ([call conn_sftp (putBufferCmd buffer location)], h0))
                 session false h)) as H0.
    { destruct session; cbv [putBuffer_inv]; simpl; repeat split;
        repeat constructor. }
    revert H0. generalize (cmd (closure := closure)
                (fun h0 => ([call conn_sftp (putBufferCmd buffer location)], h0))
                session false h).
    induction evs as [|ev evs IH]; intros w Hw; [done|].
    simpl. apply IH. by apply putBuffer_inv_step. }
  split; [apply Hinv | done].
Qed.
End PutBufferAlways.

(** C8: putBuffer asks for the sub-channel, opens the path with 'w', issues
    one write of the whole buffer (buffer offset 0, length buffer.length,
    file position 0), closes the handle and resolves true.  It has no loop:
    whatever ssh2 answers, and in whatever order, there is at most one write
    for each sub-channel asked for, and every write is that of the whole
    buffer. *)
Theorem putBuffer_writes_once buffer location session h handle evs :
  (requests (trace (putBuffer buffer location session h
                      (connected session ++ putBuffer_replies handle)))
     = [conn_sftp; sftp_open location "w";
        sftp_write handle buffer 0 (Buffer_length buffer h) 0;
        sftp_close handle] /\
   outer (putBuffer buffer location session h
            (connected session ++ putBuffer_replies handle))
     = Some (Fulfilled VTrue)) /\
  ((length (filter is_write
              (requests (trace (putBuffer buffer location session h evs))))
    <= length (filter is_sftp
                 (requests (trace (putBuffer buffer location session h evs)))))%nat /\
   Forall (whole_buffer_write buffer h)
     (requests (trace (putBuffer buffer location session h evs)))).
Proof.
  split.
  - rewrite putBuffer_success. cbn [trace outer]. split; [|done].
    by rewrite !requests_app, !requests_Conn.
  - destruct (putBuffer_inv_run buffer location session h evs)
      as (_ & _ & _ & Hwhole & Hcount).
    split; [lia | done].
Qed.

(** ** More about cmd *)

Section CmdMore.
Context {closure : Type}.
Variable apply : closure -> args -> heap -> list (effect closure) * heap.
Variable cmdCB : heap -> list (effect closure) * heap.

Lemma drain_keeps session persist (w : world closure) :
  bufs (drain session persist w) = bufs w /\
  outstanding (drain session persist w) = outstanding w /\
  inner (drain session persist w) = inner w /\
  requests (trace (drain session persist w)) = requests (trace w) /\
  invocations (trace (drain session persist w)) = invocations (trace w).
Proof.
  unfold drain.
  destruct (inner w) as [[val|err]|] eqn:Hi, (outer w) eqn:Ho; try done;
    unfold resolved, rejected, fulfil, handleConn;
    destruct session, persist; cbn;
    rewrite ?requests_app, ?invocations_app; cbn; by rewrite ?app_nil_r.
Qed.

Lemma settled_closings session persist o (w : world closure) :
  settled session persist o w ->
  closings (trace w) = teardown session persist (failed o).
Proof.
  intros (_ & _ & pre & post & Htr & _ & Hc1 & _ & Hc2 & _).
  rewrite Htr, !closings_app, closings_Settled, Hc1, Hc2, closings_teardown.
  apply app_nil_r.
Qed.

Lemma step_settled session persist o (w : world closure) ev :
  settled session persist o w ->
  settled session persist o (step apply cmdCB session persist w ev).
Proof.
  intros Hs. unfold step.
  pose proof (tick_settled session persist _ _ _
                (dispatch_tick apply cmdCB session ev w) Hs) as Hs'.
  by rewrite (drain_settled session persist _ _ Hs').
Qed.

Lemma before_ready_fold persist evs :
  Forall (fun ev => is_ready ev = false) evs ->
  forall w : world closure,
    outstanding w = [] ->
    outstanding (foldl (step apply cmdCB false persist) w evs) = [] /\
    requests (trace (foldl (step apply cmdCB false persist) w evs))
      = requests (trace w) /\
    invocations (trace (foldl (step apply cmdCB false persist) w evs))
      = invocations (trace w) ++ omap signal_rejection evs.
Proof.
  induction 1 as [|ev evs Hev _ IH]; intros w Hout.
  - simpl. by rewrite app_nil_r.
  - cbn [foldl].
    assert (outstanding (step apply cmdCB false persist w ev) = [] /\
            requests (trace (step apply cmdCB false persist w ev))
              = requests (trace w) /\
            invocations (trace (step apply cmdCB false persist w ev))
              = invocations (trace w) ++ omap signal_rejection [ev])
      as (Ho & Hr & Hi).
    { unfold step.
      destruct (drain_keeps false persist
                  (dispatch apply cmdCB false ev w)) as (_ & -> & _ & -> & ->).
      destruct ev as [[| |err]|i c]; try done; cbn.
      - by rewrite requests_app, invocations_app, app_nil_r.
      - by rewrite requests_app, invocations_app, app_nil_r.
      - rewrite Hout. cbn. by rewrite app_nil_r. }
    destruct (IH _ Ho) as (Ho' & Hr' & Hi').
    rewrite Ho', Hr', Hi', Hr, Hi. repeat split; auto.
    change (ev :: evs) with ([ev] ++ evs). by rewrite omap_app, app_assoc.
Qed.

(** X1: as long as a connection cmd created has not emitted 'ready', the
    operation body is not run: no ssh2 call of the body is made, and the
    only invocations are reject('Connection closed') for each 'end' and
    reject(err) for each 'error', in the order of the signals. *)
Theorem cmd_body_waits_for_ready persist h evs :
  Forall (fun ev => is_ready ev = false) evs ->
  requests (trace (run apply cmdCB false persist h evs)) = [] /\
  outstanding (run apply cmdCB false persist h evs) = [] /\
  invocations (trace (run apply cmdCB false persist h evs))
    = omap signal_rejection evs.
Proof.
  intros Hevs. unfold run.
  destruct (before_ready_fold persist evs Hevs (cmd cmdCB false persist h))
    as (Ho & Hr & Hi); [done|].
  rewrite Ho, Hr, Hi. done.
Qed.

(** X2: when a connection cmd created ends, or reports an error, while the
    promise is still pending, the promise rejects with 'Connection closed',
    or with that error, and the connection is closed with conn.end() and
    conn.destroy(), whether or not persistence was asked for. *)
Theorem cmd_connection_lost persist h evs err :
  inner (run apply cmdCB false persist h evs) = None ->
  (outer (run apply cmdCB false persist h (evs ++ [emit end_]))
     = Some (Rejected (JsError "Connection closed")) /\
   closings (trace (run apply cmdCB false persist h (evs ++ [emit end_])))
     = [conn_end; conn_destroy]) /\
  (outer (run apply cmdCB false persist h (evs ++ [emit (error err)]))
     = Some (Rejected err) /\
   closings (trace (run apply cmdCB false persist h (evs ++ [emit (error err)])))
     = [conn_end; conn_destroy]).
Proof.
  intros Hin.
  assert (unsettled (run apply cmdCB false persist h evs)) as Hu.
  { destruct (run_at_rest apply cmdCB false persist h evs) as [Hu|[o Hs]];
      [done|]. destruct Hs as (Hs & _). congruence. }
  assert (forall s e,
    (s = end_ /\ e = JsError "Connection closed") \/ s = error e ->
    settled false persist (Rejected e)
      (run apply cmdCB false persist h (evs ++ [emit s]))) as Hstep.
  { intros s e Hs. rewrite run_app. cbn [foldl]. unfold step.
    apply drain_settling.
    destruct Hu as (Hi & Ho & Hinv & Hcl & Hst).
    destruct Hs as [[-> ->]| ->];
      unfold settling, dispatch, perform, settle, log; cbn [inner outer trace];
      rewrite Hi, invocations_app, closings_app, settlements_app, Hinv, Hcl, Hst;
      by repeat split. }
  split.
  - pose proof (Hstep end_ (JsError "Connection closed") (or_introl (conj eq_refl eq_refl))) as Hs.
    split; [apply Hs|]. rewrite (settled_closings _ _ _ _ Hs).
    unfold teardown. cbn. by rewrite orb_true_r.
  - pose proof (Hstep (error err) err (or_intror eq_refl)) as Hs.
    split; [apply Hs|]. rewrite (settled_closings _ _ _ _ Hs).
    unfold teardown. cbn. by rewrite orb_true_r.
Qed.

Lemma step_session_signal persist (w : world closure) s :
  at_rest true persist w ->
  step apply cmdCB true persist w (emit s) = w.
Proof.
  intros [Hu|[o Hs]]; unfold step; cbn.
  - by apply drain_unsettled.
  - by apply (drain_settled true persist o).
Qed.

(** X3: with a session, cmd installs no listener: the 'ready', 'end' and
    'error' signals of the connection have no effect on the operation, which
    goes on exactly as if they had not been emitted. *)
Theorem cmd_session_ignores_signals persist h evs :
  run apply cmdCB true persist h evs
  = run apply cmdCB true persist h (filter is_fire evs).
Proof.
  unfold run.
  generalize (cmd_at_rest cmdCB true persist h).
  generalize (cmd cmdCB true persist h).
  induction evs as [|ev evs IH]; intros w Hw; [done|].
  destruct ev as [s|i c].
  - rewrite filter_cons_False by (by intros []). cbn [foldl].
    rewrite step_session_signal by done. by apply IH.
  - rewrite filter_cons_True by done. cbn [foldl].
    apply IH. by apply step_at_rest.
Qed.

(** X4: a promise of cmd that has settled stays as it is: no signal and no
    callback arriving later changes the outcome of the inner or of the
    returned promise. *)
Theorem cmd_outcome_is_final session persist h evs evs' o :
  inner (run apply cmdCB session persist h evs) = Some o ->
  inner (run apply cmdCB session persist h (evs ++ evs')) = Some o /\
  outer (run apply cmdCB session persist h (evs ++ evs')) = Some o.
Proof.
  intros Hin. rewrite run_app.
  pose proof (run_settled_shape apply cmdCB session persist h evs o Hin) as Hs.
  revert Hs. generalize (run apply cmdCB session persist h evs).
  induction evs' as [|ev evs' IH]; intros w Hs.
  - by destruct Hs as (? & ? & _).
  - cbn [foldl]. apply IH. by apply step_settled.
Qed.
End CmdMore.

Lemma cmd_body_waits_for_ready_witness :
  invocations (trace (execCmd "true" false true []
                 [emit (error (TransportError 1)); fire 0 succeeds; emit end_]))
  = [Rejected (TransportError 1); Rejected (JsError "Connection closed")].
Proof.
  refine (proj2 (proj2 (cmd_body_waits_for_ready apply _ true []
            [emit (error (TransportError 1)); fire 0 succeeds; emit end_] _))).
  repeat constructor.
Defined.

Lemma cmd_connection_lost_witness :
  outer (execCmd "true" false true []
           ([emit ready; fire 0 succeeds] ++ [emit end_]))
  = Some (Rejected (JsError "Connection closed")).
Proof.
  refine (proj1 (proj1 (cmd_connection_lost apply _ true []
            [emit ready; fire 0 succeeds] (TransportError 0) _))).
  reflexivity.
Defined.

Lemma cmd_outcome_is_final_witness :
  outer (execCmd "true" false false []
           ([emit ready; fire 0 succeeds; fire 0 (exits 0)]
            ++ [emit end_; fire 0 (exits 1)]))
  = Some (Fulfilled VTrue).
Proof.
  refine (proj2 (cmd_outcome_is_final apply _ false false []
            [emit ready; fire 0 succeeds; fire 0 (exits 0)]
            [emit end_; fire 0 (exits 1)] (Fulfilled VTrue) _)).
  reflexivity.
Defined.

(** ** More about getBuffer *)

Section GetBufferMore.
Variables (location : string) (session : bool) (h : heap) (handle : fd).

Local Abbreviation gstep' :=
  (step apply (fun h => ([call conn_sftp (getBufferCmd location)], h)) session false).

Local Abbreviation started' :=
  (map Conn (if session then []
             else [conn_on "ready"; conn_on "end"; conn_on "error"; conn_connect])
   ++ [Called conn_sftp; Called (sftp_open location "r"); Called (sftp_fstat handle)]).

(** The loop after the reads have delivered [chunks] and [m] bytes are still
    missing. *)
Lemma getBuffer_loop_partial (m : nat) (chunks : list (list byte)) :
  (0 < m)%nat ->
  forall (written : list byte) t,
  foldl gstep'
    (World (h ++ [written ++ replicate (length (concat chunks) + m) Byte.x00])
       [(sftp_read handle (length h) (Z.of_nat (length written))
           (Z.of_nat (length (concat chunks) + m))
           (Z.of_nat (length written)),
         getBuffer_cb handle (length h)
           (Z.of_nat (length (concat chunks) + m)))]
       None None
       (t ++ [Called (sftp_read handle (length h) (Z.of_nat (length written))
                 (Z.of_nat (length (concat chunks) + m))
                 (Z.of_nat (length written)))]))
    (deliver chunks)
  = World (h ++ [(written ++ concat chunks) ++ replicate m Byte.x00])
      [(sftp_read handle (length h)
          (Z.of_nat (length (written ++ concat chunks))) (Z.of_nat m)
          (Z.of_nat (length (written ++ concat chunks))),
        getBuffer_cb handle (length h) (Z.of_nat m))]
      None None
      (t ++ map Called
              (reads_from handle (length h) (Z.of_nat (length written))
                 (Z.of_nat (length (concat chunks) + m)) chunks)
         ++ [Called (sftp_read handle (length h)
                       (Z.of_nat (length (written ++ concat chunks))) (Z.of_nat m)
                       (Z.of_nat (length (written ++ concat chunks))))]).
Proof.
  intros Hm. induction chunks as [|chunk chunks IH]; intros written t.
  - cbn [concat deliver map foldl length reads_from]. by rewrite !app_nil_r.
  - change (deliver (chunk :: chunks))
      with (fire 0 (gives_data chunk) :: deliver chunks).
    change (concat (chunk :: chunks)) with (chunk ++ concat chunks).
    cbn [foldl]. rewrite length_app.
    rewrite getBuffer_cb_step by lia.
    rewrite bool_decide_false by lia. cbn [fst].
    replace (length chunk + length (concat chunks) + m - length chunk)%nat
      with (length (concat chunks) + m)%nat by lia.
    rewrite IH. rewrite <- !app_assoc. cbn [reads_from map app].
    repeat f_equal; rewrite ?length_app; lia.
Qed.

Lemma getBuffer_reading (m : nat) (chunks : list (list byte)) :
  (0 < m)%nat ->
  getBuffer location session h
    (connected session
     ++ getBuffer_opening handle (Z.of_nat (length (concat chunks) + m))
     ++ deliver chunks)
  = World (h ++ [concat chunks ++ replicate m Byte.x00])
      [(sftp_read handle (length h)
          (Z.of_nat (length (concat chunks))) (Z.of_nat m)
          (Z.of_nat (length (concat chunks))),
        getBuffer_cb handle (length h) (Z.of_nat m))]
      None None
      (started'
       ++ map Called
            (reads_from handle (length h) 0
               (Z.of_nat (length (concat chunks) + m)) chunks)
       ++ [Called (sftp_read handle (length h)
                     (Z.of_nat (length (concat chunks))) (Z.of_nat m)
                     (Z.of_nat (length (concat chunks))))]).
Proof.
  intros Hm.
  rewrite (app_assoc (connected session)).
  unfold getBuffer, sftpCmd. rewrite run_app.
  fold (sftpCmd (getBufferCmd location) session false).
  fold (getBuffer location session).
  rewrite getBuffer_first_read by lia.
  apply (getBuffer_loop_partial m chunks Hm [] _).
Qed.

(** X5: when a read fails in the middle of the loop, getBuffer rejects with
    the error of that read: it issues no further read, never calls
    sftp.close on the file handle it opened, and the partly filled buffer is
    not handed out. *)
Theorem getBuffer_read_error (m : nat) (chunks : list (list byte)) err :
  (0 < m)%nat ->
  outer (getBuffer location session h
           (connected session
            ++ (getBuffer_opening handle (Z.of_nat (length (concat chunks) + m))
                ++ deliver chunks)
            ++ [fire 0 (fails err)]))
    = Some (Rejected err) /\
  requests (trace (getBuffer location session h
           (connected session
            ++ (getBuffer_opening handle (Z.of_nat (length (concat chunks) + m))
                ++ deliver chunks)
            ++ [fire 0 (fails err)])))
    = [conn_sftp; sftp_open location "r"; sftp_fstat handle]
      ++ reads_from handle (length h) 0
           (Z.of_nat (length (concat chunks) + m)) chunks
      ++ [sftp_read handle (length h)
            (Z.of_nat (length (concat chunks))) (Z.of_nat m)
            (Z.of_nat (length (concat chunks)))] /\
  outstanding (getBuffer location session h
           (connected session
            ++ (getBuffer_opening handle (Z.of_nat (length (concat chunks) + m))
                ++ deliver chunks)
            ++ [fire 0 (fails err)])) = [].
Proof.
  intros Hm. rewrite app_assoc.
  unfold getBuffer, sftpCmd. rewrite run_app.
  fold (sftpCmd (getBufferCmd location) session false).
  fold (getBuffer location session).
  rewrite getBuffer_reading by done. cbn [foldl].
  erewrite step_fire_first; [|done|done|reflexivity].
  destruct session; expose_world; repeat split;
    rewrite !requests_app, ?requests_Conn, requests_Called; cbn;
    by rewrite <- ?app_assoc, ?app_nil_r.
Qed.

(** X6: when opening the sub-channel, opening the file or the fstat fails,
    getBuffer rejects with that error and makes no further call; after a
    failed fstat the file handle it opened is not closed. *)
Theorem getBuffer_setup_errors err :
  (outer (getBuffer location session h
            (connected session ++ [fire 0 (fails err)]))
     = Some (Rejected err) /\
   requests (trace (getBuffer location session h
            (connected session ++ [fire 0 (fails err)])))
     = [conn_sftp]) /\
  (outer (getBuffer location session h
            (connected session ++ [fire 0 succeeds; fire 0 (fails err)]))
     = Some (Rejected err) /\
   requests (trace (getBuffer location session h
            (connected session ++ [fire 0 succeeds; fire 0 (fails err)])))
     = [conn_sftp; sftp_open location "r"]) /\
  (outer (getBuffer location session h
            (connected session
             ++ [fire 0 succeeds; fire 0 (gives_handle handle); fire 0 (fails err)]))
     = Some (Rejected err) /\
   requests (trace (getBuffer location session h
            (connected session
             ++ [fire 0 succeeds; fire 0 (gives_handle handle); fire 0 (fails err)])))
     = [conn_sftp; sftp_open location "r"; sftp_fstat handle] /\
   outstanding (getBuffer location session h
            (connected session
             ++ [fire 0 succeeds; fire 0 (gives_handle handle); fire 0 (fails err)]))
     = []).
Proof. by destruct session. Qed.

(** X7: when sftp.close fails after the whole file has been read, getBuffer
    rejects with the error of the close: the data that was read is not
    handed out. *)
Theorem getBuffer_close_error chunks last err :
  last <> [] ->
  outer (getBuffer location session h
           (connected session
            ++ (getBuffer_opening handle
                  (Z.of_nat (length (concat (chunks ++ [last]))))
                ++ deliver (chunks ++ [last]))
            ++ [fire 0 (fails err)]))
    = Some (Rejected err) /\
  invocations (trace (getBuffer location session h
           (connected session
            ++ (getBuffer_opening handle
                  (Z.of_nat (length (concat (chunks ++ [last]))))
                ++ deliver (chunks ++ [last]))
            ++ [fire 0 (fails err)])))
    = [Rejected err].
Proof.
  intros Hlast.
  assert (0 < length (concat (chunks ++ [last])))%nat as Hpos.
  { rewrite concat_app, length_app. simpl. rewrite app_nil_r.
    destruct last; [done|]. simpl. lia. }
  rewrite app_assoc, (app_assoc (connected session)).
  unfold getBuffer, sftpCmd. rewrite run_app, run_app.
  fold (sftpCmd (getBufferCmd location) session false).
  fold (getBuffer location session).
  rewrite getBuffer_first_read by done.
  rewrite (getBuffer_loop location session h handle last chunks Hlast [] _).
  cbn [foldl].
  erewrite step_fire_first; [|done|done|reflexivity].
  destruct session; expose_world; split; try done;
    rewrite !invocations_app; cbn;
    rewrite ?invocations_Conn; cbn.
  all: induction (reads_from _ _ _ _ _) as [|r rs IHrs]; [done|by cbn].
Qed.

Lemma reads_from_nothing buffer position bytes (k : nat) :
  reads_from handle buffer position bytes (replicate k [])
  = replicate k (sftp_read handle buffer position bytes position).
Proof.
  induction k as [|k IH]; [done|].
  cbn [replicate reads_from length]. rewrite Z.add_0_r, Z.sub_0_r. by f_equal.
Qed.

Lemma concat_nothing (k : nat) : concat (replicate k ([] : list byte)) = [].
Proof. induction k as [|k IH]; [done|]. by cbn. Qed.

(** X8: a read that delivers no byte is issued again at the same offset for
    the same count: as long as the reads deliver nothing, getBuffer neither
    resolves nor rejects, however many reads that takes. *)
Theorem getBuffer_empty_reads_repeat (n k : nat) :
  (0 < n)%nat ->
  inner (getBuffer location session h
           (connected session ++ getBuffer_opening handle (Z.of_nat n)
            ++ deliver (replicate k []))) = None /\
  outstanding (getBuffer location session h
           (connected session ++ getBuffer_opening handle (Z.of_nat n)
            ++ deliver (replicate k [])))
    = [(sftp_read handle (length h) 0 (Z.of_nat n) 0,
        getBuffer_cb handle (length h) (Z.of_nat n))] /\
  requests (trace (getBuffer location session h
           (connected session ++ getBuffer_opening handle (Z.of_nat n)
            ++ deliver (replicate k []))))
    = [conn_sftp; sftp_open location "r"; sftp_fstat handle]
      ++ replicate (S k) (sftp_read handle (length h) 0 (Z.of_nat n) 0).
Proof.
  intros Hn.
  pose proof (getBuffer_reading n (replicate k []) Hn) as Hw.
  rewrite concat_nothing in Hw. cbn [length Nat.add] in Hw.
  rewrite Hw. cbn [inner outstanding trace]. repeat split.
  rewrite !requests_app, ?requests_Conn, requests_Called, reads_from_nothing.
  rewrite replicate_S_end. reflexivity.
Qed.
End GetBufferMore.

Lemma getBuffer_read_error_witness :
  outer (getBuffer "/tmp/f" false []
           (connected false
            ++ (getBuffer_opening 7 (Z.of_nat (length (concat [[Byte.x61]]) + 2))
                ++ deliver [[Byte.x61]])
            ++ [fire 0 (fails (TransportError 4))]))
  = Some (Rejected (TransportError 4)).
Proof.
  refine (proj1 (getBuffer_read_error "/tmp/f" false [] 7 2 [[Byte.x61]]
                   (TransportError 4) _)).
  lia.
Defined.

Lemma getBuffer_close_error_witness :
  outer (getBuffer "/tmp/f" false []
           (connected false
            ++ (getBuffer_opening 7
                  (Z.of_nat (length (concat ([[Byte.x61]] ++ [[Byte.x62]]))))
                ++ deliver ([[Byte.x61]] ++ [[Byte.x62]]))
            ++ [fire 0 (fails (TransportError 4))]))
  = Some (Rejected (TransportError 4)).
Proof.
  refine (proj1 (getBuffer_close_error "/tmp/f" false [] 7 [[Byte.x61]]
                   [Byte.x62] (TransportError 4) _)).
  discriminate.
Defined.

Lemma getBuffer_empty_reads_repeat_witness :
  inner (getBuffer "/tmp/f" false []
           (connected false ++ getBuffer_opening 7 (Z.of_nat 3)
            ++ deliver (replicate 5 []))) = None.
Proof.
  refine (proj1 (getBuffer_empty_reads_repeat "/tmp/f" false [] 7 3 5 _)).
  lia.
Defined.

(** ** More about putBuffer *)

(** X9: when opening the sub-channel, opening the file, the write or the
    close fails, putBuffer rejects with that error and makes no further
    call; after a failed write it does not call sftp.close on the file
    handle it opened. *)
Theorem putBuffer_errors buffer location session h handle err :
  (outer (putBuffer buffer location session h
            (connected session ++ [fire 0 (fails err)]))
     = Some (Rejected err) /\
   requests (trace (putBuffer buffer location session h
            (connected session ++ [fire 0 (fails err)])))
     = [conn_sftp]) /\
  (outer (putBuffer buffer location session h
            (connected session ++ [fire 0 succeeds; fire 0 (fails err)]))
     = Some (Rejected err) /\
   requests (trace (putBuffer buffer location session h
            (connected session ++ [fire 0 succeeds; fire 0 (fails err)])))
     = [conn_sftp; sftp_open location "w"]) /\
  (outer (putBuffer buffer location session h
            (connected session
             ++ [fire 0 succeeds; fire 0 (gives_handle handle); fire 0 (fails err)]))
     = Some (Rejected err) /\
   requests (trace (putBuffer buffer location session h
            (connected session
             ++ [fire 0 succeeds; fire 0 (gives_handle handle); fire 0 (fails err)])))
     = [conn_sftp; sftp_open location "w";
        sftp_write handle buffer 0 (Buffer_length buffer h) 0] /\
   outstanding (putBuffer buffer location session h
            (connected session
             ++ [fire 0 succeeds; fire 0 (gives_handle handle); fire 0 (fails err)]))
     = []) /\
  (outer (putBuffer buffer location session h
            (connected session
             ++ [fire 0 succeeds; fire 0 (gives_handle handle); fire 0 succeeds;
                 fire 0 (fails err)]))
     = Some (Rejected err)).
Proof. by destruct session. Qed.

(** X10: putBuffer never changes a buffer: whatever ssh2 answers and
    whatever the connection signals, the heap stays as it was when putBuffer
    was called. *)
Theorem putBuffer_leaves_buffers buffer location session h evs :
  bufs (putBuffer buffer location session h evs) = h.
Proof. apply (putBuffer_inv_run buffer location session h evs). Qed.

(** ** More about getStream and putStream *)

(** X11: for a file of [size] bytes getStream stats the path, creates a read
    stream from byte 0 to byte [size - 1] (to byte 0 for an empty file),
    pipes it into the writable stream and installs the 'end' and 'error'
    listeners; the promise is pending until the stream ends, and then
    resolves true. *)
Theorem getStream_streams_whole_file path session h size :
  0 <= size ->
  (requests (trace (getStream path true session h
       (connected session
        ++ [fire 0 succeeds; fire 0 (gives_size size); fire 0 succeeds])))
     = [conn_sftp; sftp_stat path;
        sftp_createReadStream path 0
          (if bool_decide (size > 0) then size - 1 else size);
        stream_pipe; stream_on "end"; stream_on "error"] /\
   inner (getStream path true session h
       (connected session
        ++ [fire 0 succeeds; fire 0 (gives_size size); fire 0 succeeds]))
     = None) /\
  outer (getStream path true session h
       (connected session
        ++ [fire 0 succeeds; fire 0 (gives_size size); fire 0 succeeds;
            fire 0 succeeds]))
    = Some (Fulfilled VTrue).
Proof.
  intros Hsize. destruct size as [|p|p]; [| |lia]; by destruct session.
Qed.

Lemma getStream_streams_whole_file_witness :
  outer (getStream "/tmp/f" true false []
       (connected false
        ++ [fire 0 succeeds; fire 0 (gives_size 1); fire 0 succeeds;
            fire 0 succeeds]))
    = Some (Fulfilled VTrue).
Proof.
  refine (proj2 (getStream_streams_whole_file "/tmp/f" false [] 1 _)).
  lia.
Defined.

(** X12: getStream rejects with the error of the stat, with the error
    thrown by createReadStream, or with the error the read stream emits;
    after a failed stat no stream is created, and after a failed
    createReadStream nothing is piped. *)
Theorem getStream_errors path session h size err :
  0 <= size ->
  (outer (getStream path true session h
            (connected session ++ [fire 0 succeeds; fire 0 (fails err)]))
     = Some (Rejected err) /\
   requests (trace (getStream path true session h
            (connected session ++ [fire 0 succeeds; fire 0 (fails err)])))
     = [conn_sftp; sftp_stat path]) /\
  (outer (getStream path true session h
            (connected session
             ++ [fire 0 succeeds; fire 0 (gives_size size); fire 0 (fails err)]))
     = Some (Rejected err) /\
   filter (fun r => bool_decide (r = stream_pipe))
     (requests (trace (getStream path true session h
            (connected session
             ++ [fire 0 succeeds; fire 0 (gives_size size); fire 0 (fails err)]))))
     = []) /\
  outer (getStream path true session h
            (connected session
             ++ [fire 0 succeeds; fire 0 (gives_size size); fire 0 succeeds;
                 fire 1 (fails err)]))
    = Some (Rejected err).
Proof.
  intros Hsize. destruct size as [|p|p]; [| |lia]; by destruct session.
Qed.

Lemma getStream_errors_witness :
  outer (getStream "/tmp/f" true false []
            (connected false
             ++ [fire 0 succeeds; fire 0 (gives_size 5); fire 0 succeeds;
                 fire 1 (fails (TransportError 4))]))
    = Some (Rejected (TransportError 4)).
Proof.
  refine (proj2 (proj2 (getStream_errors "/tmp/f" false [] 5
                          (TransportError 4) _))).
  lia.
Defined.

(** X13: putStream creates a write stream on the path and installs the
    'open', 'finish' and 'error' listeners; it pipes the readable stream
    into it only once the write stream has opened, resolves true when the
    write stream finishes, and rejects with the error thrown by
    createWriteStream or emitted by the write stream. *)
Theorem putStream_pipes_after_open path session h err :
  (requests (trace (putStream path true session h
       (connected session ++ [fire 0 succeeds; fire 0 succeeds])))
     = [conn_sftp; sftp_createWriteStream path;
        stream_on "open"; stream_on "finish"; stream_on "error"] /\
   inner (putStream path true session h
       (connected session ++ [fire 0 succeeds; fire 0 succeeds])) = None) /\
  (requests (trace (putStream path true session h
       (connected session ++ [fire 0 succeeds; fire 0 succeeds; fire 0 succeeds])))
     = [conn_sftp; sftp_createWriteStream path;
        stream_on "open"; stream_on "finish"; stream_on "error";
        readableStream_pipe] /\
   inner (putStream path true session h
       (connected session ++ [fire 0 succeeds; fire 0 succeeds; fire 0 succeeds]))
     = None) /\
  outer (putStream path true session h
       (connected session
        ++ [fire 0 succeeds; fire 0 succeeds; fire 0 succeeds; fire 1 succeeds]))
    = Some (Fulfilled VTrue) /\
  outer (putStream path true session h
       (connected session ++ [fire 0 succeeds; fire 0 (fails err)]))
    = Some (Rejected err) /\
  outer (putStream path true session h
       (connected session ++ [fire 0 succeeds; fire 0 succeeds; fire 2 (fails err)]))
    = Some (Rejected err).
Proof. by destruct session. Qed.

(** ** mkdirp *)

(** X14: mkdirp runs the command 'mkdir -p' followed by the path between
    double quotes, through execCmd and without persistence: it resolves true
    when the command exits with status 0, rejects with 'none zero exit code'
    when it exits with another status, and rejects with the error of
    conn.exec when the command cannot be started. *)
Theorem mkdirp_outcome path session h exitCode err :
  (requests (trace (mkdirp path session h
       (connected session ++ [fire 0 succeeds; fire 0 (exits 0)])))
     = [conn_exec (String.append "mkdir -p "
                     (String.append dquote (String.append path dquote)));
        stream_on "exit"] /\
   outer (mkdirp path session h
       (connected session ++ [fire 0 succeeds; fire 0 (exits 0)]))
     = Some (Fulfilled VTrue) /\
   closings (trace (mkdirp path session h
       (connected session ++ [fire 0 succeeds; fire 0 (exits 0)])))
     = teardown session false false) /\
  (exitCode <> 0 ->
   outer (mkdirp path session h
       (connected session ++ [fire 0 succeeds; fire 0 (exits exitCode)]))
     = Some (Rejected (JsError "none zero exit code"))) /\
  outer (mkdirp path session h
       (connected session ++ [fire 0 (fails err)]))
    = Some (Rejected err).
Proof.
  split; [by destruct session|]. split; [|by destruct session].
  intros Hcode. destruct exitCode as [|p|p]; [done| |]; by destruct session.
Qed.

Lemma mkdirp_outcome_witness :
  outer (mkdirp "/tmp/a/b" false []
       (connected false ++ [fire 0 succeeds; fire 0 (exits 1)]))
    = Some (Rejected (JsError "none zero exit code")).
Proof.
  refine (proj1 (proj2 (mkdirp_outcome "/tmp/a/b" false [] 1
                          (TransportError 0))) _).
  discriminate.
Defined.

(** ** session *)

Lemma session_settled_stays o signals :
  forall st, session_promise st = Some o ->
  session_promise (foldl session_signal st signals) = Some o.
Proof.
  induction signals as [|s signals IH]; intros st Hst; [done|].
  cbn [foldl]. apply IH. unfold session_signal.
  destruct (listening st); [|done].
  destruct s; cbn; by rewrite Hst.
Qed.

Lemma session_deaf signals :
  forall st, listening st = false -> foldl session_signal st signals = st.
Proof.
  induction signals as [|s signals IH]; intros st Hst; [done|].
  cbn [foldl]. unfold session_signal at 2. rewrite Hst. by apply IH.
Qed.

Lemma session_listening_after_ready st :
  listening (session_signal st ready) = false.
Proof. unfold session_signal. by destruct (listening st) eqn:Hl. Qed.

(** X15: session resolves with the connection when 'ready' is the first
    signal; at 'ready' it removes all listeners, so whatever the connection
    signals after a 'ready' reaches neither resolve nor reject. *)
Theorem session_ready_removes_listeners thrown before after :
  session_promise (session_run None (ready :: after)) = Some SessionResolved /\
  session_run thrown (before ++ ready :: after)
    = session_run thrown (before ++ [ready]).
Proof.
  split.
  - unfold session_run. cbn [foldl]. by apply session_settled_stays.
  - unfold session_run. rewrite !foldl_app. cbn [foldl].
    apply session_deaf, session_listening_after_ready.
Qed.

(** X16: session rejects with what conn.connect threw, whatever is signalled
    afterwards; without a throw it rejects with 'Connection closed' when
    'end' is the first signal and with the error when 'error' is the
    first. *)
Theorem session_failures err signals :
  session_promise (session_run (Some err) signals)
    = Some (SessionRejected err) /\
  session_promise (session_run None (end_ :: signals))
    = Some (SessionRejected (JsError "Connection closed")) /\
  session_promise (session_run None (error err :: signals))
    = Some (SessionRejected err).
Proof.
  repeat split; unfold session_run; cbn [foldl];
    by apply session_settled_stays.
Qed.

(** ** statToAttrs *)

Section StatToAttrs.
Variable stats : Fs.Stats.

Local Abbreviation copy :=
  (fun (attrs : gmap string Fs.jsval) (attr : string) =>
     if Fs.hasOwnProperty stats attr
     then <[attr := Fs.JNum (Fs.own stats !!! attr)]> attrs
     else attrs).

Lemma copy_loop_own (l : list string) k n :
  Fs.own stats !! k = Some n -> k ∈ l ->
  forall attrs, foldl copy attrs l !! k = Some (Fs.JNum n).
Proof.
  intros Hk. induction l as [|a l IH]; intros Hin attrs.
  - by apply elem_of_nil in Hin.
  - cbn [foldl].
    destruct (decide (k ∈ l)) as [Hl|Hl]; [by apply IH|].
    apply elem_of_cons in Hin as [->|Hin]; [|done].
    assert (forall acc : gmap string Fs.jsval,
              acc !! a = Some (Fs.JNum n) -> foldl copy acc l !! a = Some (Fs.JNum n))
      as Hkeep.
    { clear IH. revert Hl. induction l as [|b l IHl]; intros Hl acc Hacc; [done|].
      cbn [foldl]. apply not_elem_of_cons in Hl as [Hab Hl]. apply IHl; [done|].
      destruct (Fs.hasOwnProperty stats b); [|done].
      by rewrite lookup_insert_ne. }
    apply Hkeep. unfold Fs.hasOwnProperty.
    rewrite bool_decide_true by (apply elem_of_dom; eauto).
    rewrite lookup_insert_eq. f_equal. f_equal.
    by apply lookup_total_correct.
Qed.

Lemma copy_loop_other (l : list string) k :
  Fs.own stats !! k = None ->
  forall attrs, foldl copy attrs l !! k = attrs !! k.
Proof.
  intros Hk. induction l as [|a l IH]; intros attrs; [done|].
  cbn [foldl]. rewrite IH. unfold Fs.hasOwnProperty.
  destruct (decide (a ∈ dom (Fs.own stats))) as [Ha|Ha].
  - rewrite bool_decide_true by done.
    apply lookup_insert_ne. intros ->.
    apply elem_of_dom in Ha as [? ?]. congruence.
  - by rewrite bool_decide_false.
Qed.

Lemma statToAttrs_own : Fs.statToAttrs stats = Fs.JNum <$> Fs.own stats.
Proof.
  apply map_eq. intros k. rewrite lookup_fmap. unfold Fs.statToAttrs.
  destruct (Fs.own stats !! k) as [n|] eqn:Hk.
  - cbn. apply copy_loop_own; [done|]. unfold Fs.for_in.
    apply elem_of_app. left. apply elem_of_elements, elem_of_dom. eauto.
  - cbn. rewrite copy_loop_other by done. apply lookup_empty.
Qed.

(** X17: statToAttrs returns a fresh object holding every own property of
    the Stats object with its value, and nothing else: the names the object
    only inherits from its prototype are left out. *)
Theorem statToAttrs_copies_own_properties :
  (forall attr n, Fs.own stats !! attr = Some n ->
     Fs.statToAttrs stats !! attr = Some (Fs.JNum n)) /\
  (forall attr, Fs.own stats !! attr = None ->
     Fs.statToAttrs stats !! attr = None) /\
  (forall attr, attr ∈ Fs.inherited stats -> attr ∉ dom (Fs.own stats) ->
     Fs.statToAttrs stats !! attr = None).
Proof.
  rewrite statToAttrs_own. repeat split.
  - intros attr n Hn. by rewrite lookup_fmap, Hn.
  - intros attr Hn. by rewrite lookup_fmap, Hn.
  - intros attr _ Hattr. apply not_elem_of_dom in Hattr.
    by rewrite lookup_fmap, Hattr.
Qed.
End StatToAttrs.

(** ** stat and ls *)

(** Run the machine of [Fs] as far as the script goes. *)
Ltac fs_exec :=
  cbv [Fs.ls Fs.stat Fs.createReadStream Fs.createWriteStream
       Fs.sftpCmd Fs.run Fs.connected foldl app Fs.step Fs.dispatch
       Fs.cmd Fs.executor Fs.perform_all Fs.perform Fs.drain Fs.log
       Fs.settle Fs.resolved Fs.rejected Fs.fulfil Fs.handleConn
       Fs.outstanding Fs.inner Fs.outer Fs.trace negb andb orb];
  cbn [lookup list_lookup Fs.transport Fs.persistent delete list_delete
       Fs.apply foldl].

(** X18: stat resolves with a copy of the own properties of the Stats
    object in which [path] is the path asked for and [type] is 'directory',
    'file' or 'other' (an own property of one of these names is
    overwritten); it rejects with the error of the sub-channel or of the
    stat. *)
Theorem stat_outcome location session stats err :
  (exists attrs,
     Fs.outer (Fs.stat location session
                 (Fs.connected session
                  ++ [Fs.fire 0 Fs.succeeds; Fs.fire 0 (Fs.gives_stats stats)]))
       = Some (Fs.Fulfilled (Fs.VAttrs attrs)) /\
     attrs !! "path" = Some (Fs.JStr location) /\
     attrs !! "type" = Some (Fs.JStr (Fs.type_of stats)) /\
     forall attr, attr <> "path" -> attr <> "type" ->
       attrs !! attr = Fs.JNum <$> Fs.own stats !! attr) /\
  Fs.outer (Fs.stat location session
              (Fs.connected session ++ [Fs.fire 0 (Fs.fails err)]))
    = Some (Fs.Rejected err) /\
  Fs.outer (Fs.stat location session
              (Fs.connected session
               ++ [Fs.fire 0 Fs.succeeds; Fs.fire 0 (Fs.fails err)]))
    = Some (Fs.Rejected err).
Proof.
  split; [|by destruct session].
  exists (<["type" := Fs.JStr (Fs.type_of stats)]>
            (<["path" := Fs.JStr location]> (Fs.statToAttrs stats))).
  split; [|split; [|split]].
  - unfold Fs.type_of.
    destruct session, (Fs.isDirectory stats) eqn:Hd, (Fs.isFile stats) eqn:Hf;
      fs_exec; rewrite ?Hd, ?Hf; reflexivity.
  - rewrite lookup_insert_ne by done. apply lookup_insert_eq.
  - apply lookup_insert_eq.
  - intros attr Hp Ht. rewrite !lookup_insert_ne by done.
    rewrite statToAttrs_own.
    apply lookup_fmap.
Qed.

(** X19: ls stats the path.  For a directory it then reads the directory and
    resolves with type 'directory' and the entries; for anything else it
    makes no further call and resolves with type 'file' or 'other' and no
    entries.  The attributes are the own properties of the Stats object.
    An error of the stat or of the readdir is the rejection. *)
Theorem ls_outcome location session stats list err :
  (Fs.isDirectory stats = true ->
   Fs.outer (Fs.ls location session
               (Fs.connected session
                ++ [Fs.fire 0 Fs.succeeds; Fs.fire 0 (Fs.gives_stats stats);
                    Fs.fire 0 (Fs.gives_list list)]))
     = Some (Fs.Fulfilled
               (Fs.VListing location "directory" (Fs.JNum <$> Fs.own stats)
                  (Some list))) /\
   Fs.requests (Fs.trace (Fs.ls location session
               (Fs.connected session
                ++ [Fs.fire 0 Fs.succeeds; Fs.fire 0 (Fs.gives_stats stats);
                    Fs.fire 0 (Fs.gives_list list)])))
     = [Fs.conn_sftp; Fs.sftp_stat location; Fs.sftp_readdir location] /\
   Fs.outer (Fs.ls location session
               (Fs.connected session
                ++ [Fs.fire 0 Fs.succeeds; Fs.fire 0 (Fs.gives_stats stats);
                    Fs.fire 0 (Fs.fails err)]))
     = Some (Fs.Rejected err)) /\
  (Fs.isDirectory stats = false ->
   Fs.outer (Fs.ls location session
               (Fs.connected session
                ++ [Fs.fire 0 Fs.succeeds; Fs.fire 0 (Fs.gives_stats stats)]))
     = Some (Fs.Fulfilled
               (Fs.VListing location (Fs.type_of stats)
                  (Fs.JNum <$> Fs.own stats) None)) /\
   Fs.requests (Fs.trace (Fs.ls location session
               (Fs.connected session
                ++ [Fs.fire 0 Fs.succeeds; Fs.fire 0 (Fs.gives_stats stats)])))
     = [Fs.conn_sftp; Fs.sftp_stat location]) /\
  Fs.outer (Fs.ls location session
              (Fs.connected session
               ++ [Fs.fire 0 Fs.succeeds; Fs.fire 0 (Fs.fails err)]))
    = Some (Fs.Rejected err).
Proof.
  rewrite <- statToAttrs_own. unfold Fs.type_of.
  split; [|split; [|by destruct session]].
  - destruct stats as [o i d f]. cbn [Fs.isDirectory]. intros ->.
    by destruct session.
  - destruct stats as [o i d f]. cbn [Fs.isDirectory Fs.isFile]. intros ->.
    by destruct session, f.
Qed.

Lemma ls_outcome_witness :
  Fs.outer (Fs.ls "/tmp" false
              (Fs.connected false
               ++ [Fs.fire 0 Fs.succeeds;
                   Fs.fire 0 (Fs.gives_stats (Fs.Build_Stats ∅ ∅ true false));
                   Fs.fire 0 (Fs.gives_list ["a"; "b"])]))
  = Some (Fs.Fulfilled
            (Fs.VListing "/tmp" "directory"
               (Fs.JNum <$> Fs.own (Fs.Build_Stats ∅ ∅ true false))
               (Some ["a"; "b"]))).
Proof.
  refine (proj1 (proj1 (ls_outcome "/tmp" false (Fs.Build_Stats ∅ ∅ true false)
                          ["a"; "b"] (TransportError 0)) _)).
  reflexivity.
Defined.

(** ** get, put, rm, mv, rmdir, mkdir, realpath, pwd *)

(** X20: get, put, rm, mv, rmdir and mkdir each ask for the sub-channel and
    make one sftp call (fastGet, fastPut, unlink, rename, rmdir, mkdir) with
    their arguments in the order they were given: they resolve true when it
    succeeds, reject with its error when it fails, and reject without making
    the call when the sub-channel cannot be opened. *)
Theorem single_call_operations remote local location src dest path :
  Fs.one_call (Fs.get remote local) (Fs.sftp_fastGet remote local) /\
  Fs.one_call (Fs.put local remote) (Fs.sftp_fastPut local remote) /\
  Fs.one_call (Fs.rm location) (Fs.sftp_unlink location) /\
  Fs.one_call (Fs.mv src dest) (Fs.sftp_rename src dest) /\
  Fs.one_call (Fs.rmdir path) (Fs.sftp_rmdir path) /\
  Fs.one_call (Fs.mkdir path) (Fs.sftp_mkdir path).
Proof.
  unfold Fs.one_call. repeat apply conj; intros session err; by destruct session.
Qed.

(** X21: realpath resolves with the path sftp.realpath reports and rejects
    with its error; pwd is realpath of '.'. *)
Theorem realpath_outcome path session rpath err :
  (Fs.outer (Fs.realpath path session
               (Fs.connected session
                ++ [Fs.fire 0 Fs.succeeds; Fs.fire 0 (Fs.gives_path rpath)]))
     = Some (Fs.Fulfilled (Fs.VString rpath)) /\
   Fs.requests (Fs.trace (Fs.realpath path session
               (Fs.connected session
                ++ [Fs.fire 0 Fs.succeeds; Fs.fire 0 (Fs.gives_path rpath)])))
     = [Fs.conn_sftp; Fs.sftp_realpath path]) /\
  Fs.outer (Fs.realpath path session
              (Fs.connected session
               ++ [Fs.fire 0 Fs.succeeds; Fs.fire 0 (Fs.fails err)]))
    = Some (Fs.Rejected err) /\
  (Fs.outer (Fs.pwd session
               (Fs.connected session
                ++ [Fs.fire 0 Fs.succeeds; Fs.fire 0 (Fs.gives_path rpath)]))
     = Some (Fs.Fulfilled (Fs.VString rpath)) /\
   Fs.requests (Fs.trace (Fs.pwd session
               (Fs.connected session
                ++ [Fs.fire 0 Fs.succeeds; Fs.fire 0 (Fs.gives_path rpath)])))
     = [Fs.conn_sftp; Fs.sftp_realpath "."]).
Proof. by destruct session. Qed.

(** ** createReadStream and createWriteStream *)

(** X22: createReadStream stats the path, creates a read stream from byte 0
    to the last byte of the file and installs the 'close', 'error' and
    'readable' listeners.  When the stream becomes readable the promise
    resolves with the stream, and stream.close() is called on it at once;
    cmd leaves the connection open.  When the stream then closes, the
    connection is closed if cmd created it and left alone if it is a
    session. *)
Theorem createReadStream_resolves_then_closes path session stats :
  (Fs.requests (Fs.trace (Fs.createReadStream path session
       (Fs.connected session
        ++ [Fs.fire 0 Fs.succeeds; Fs.fire 0 (Fs.gives_stats stats);
            Fs.fire 0 Fs.succeeds])))
     = [Fs.conn_sftp; Fs.sftp_stat path;
        Fs.sftp_createReadStream path 0 (Fs.stream_end stats);
        Fs.stream_on "close"; Fs.stream_on "error"; Fs.stream_on "readable"] /\
   Fs.inner (Fs.createReadStream path session
       (Fs.connected session
        ++ [Fs.fire 0 Fs.succeeds; Fs.fire 0 (Fs.gives_stats stats);
            Fs.fire 0 Fs.succeeds])) = None) /\
  (Fs.outer (Fs.createReadStream path session
       (Fs.connected session
        ++ [Fs.fire 0 Fs.succeeds; Fs.fire 0 (Fs.gives_stats stats);
            Fs.fire 0 Fs.succeeds; Fs.fire 2 Fs.succeeds]))
     = Some (Fs.Fulfilled Fs.VStream) /\
   Fs.requests (Fs.trace (Fs.createReadStream path session
       (Fs.connected session
        ++ [Fs.fire 0 Fs.succeeds; Fs.fire 0 (Fs.gives_stats stats);
            Fs.fire 0 Fs.succeeds; Fs.fire 2 Fs.succeeds])))
     = [Fs.conn_sftp; Fs.sftp_stat path;
        Fs.sftp_createReadStream path 0 (Fs.stream_end stats);
        Fs.stream_on "close"; Fs.stream_on "error"; Fs.stream_on "readable";
        Fs.stream_close] /\
   Fs.closings (Fs.trace (Fs.createReadStream path session
       (Fs.connected session
        ++ [Fs.fire 0 Fs.succeeds; Fs.fire 0 (Fs.gives_stats stats);
            Fs.fire 0 Fs.succeeds; Fs.fire 2 Fs.succeeds]))) = []) /\
  Fs.closings (Fs.trace (Fs.createReadStream path session
       (Fs.connected session
        ++ [Fs.fire 0 Fs.succeeds; Fs.fire 0 (Fs.gives_stats stats);
            Fs.fire 0 Fs.succeeds; Fs.fire 2 Fs.succeeds; Fs.fire 0 Fs.succeeds])))
    = (if session then [] else [conn_end; conn_destroy]).
Proof. by destruct session. Qed.

(** X23: an error of the read stream does not reject the promise of
    createReadStream: the listener only closes a connection cmd created.
    With a session nothing happens at all and the promise stays pending;
    without one the promise stays pending until the connection reports its
    end, and then rejects with 'Connection closed', not with the error of
    the stream. *)
Theorem createReadStream_swallows_stream_error path session stats err :
  (Fs.inner (Fs.createReadStream path session
       (Fs.connected session
        ++ [Fs.fire 0 Fs.succeeds; Fs.fire 0 (Fs.gives_stats stats);
            Fs.fire 0 Fs.succeeds; Fs.fire 1 (Fs.fails err)])) = None /\
   Fs.outer (Fs.createReadStream path session
       (Fs.connected session
        ++ [Fs.fire 0 Fs.succeeds; Fs.fire 0 (Fs.gives_stats stats);
            Fs.fire 0 Fs.succeeds; Fs.fire 1 (Fs.fails err)])) = None /\
   Fs.closings (Fs.trace (Fs.createReadStream path session
       (Fs.connected session
        ++ [Fs.fire 0 Fs.succeeds; Fs.fire 0 (Fs.gives_stats stats);
            Fs.fire 0 Fs.succeeds; Fs.fire 1 (Fs.fails err)])))
     = (if session then [] else [conn_end; conn_destroy])) /\
  Fs.outer (Fs.createReadStream path false
       (Fs.connected false
        ++ [Fs.fire 0 Fs.succeeds; Fs.fire 0 (Fs.gives_stats stats);
            Fs.fire 0 Fs.succeeds; Fs.fire 1 (Fs.fails err); Fs.emit end_]))
    = Some (Fs.Rejected (JsError "Connection closed")) /\
  Fs.trace (Fs.createReadStream path true
       (Fs.connected true
        ++ [Fs.fire 0 Fs.succeeds; Fs.fire 0 (Fs.gives_stats stats);
            Fs.fire 0 Fs.succeeds; Fs.fire 1 (Fs.fails err)]))
    = Fs.trace (Fs.createReadStream path true
       (Fs.connected true
        ++ [Fs.fire 0 Fs.succeeds; Fs.fire 0 (Fs.gives_stats stats);
            Fs.fire 0 Fs.succeeds])).
Proof. split; [by destruct session | done]. Qed.

(** X24: createWriteStream creates a write stream on the path and installs
    the 'close', 'error' and 'open' listeners.  When the stream opens the
    promise resolves with it and cmd leaves the connection open; when the
    stream later closes, the connection is closed if cmd created it and left
    alone if it is a session.  An error thrown by sftp.createWriteStream is
    the rejection. *)
Theorem createWriteStream_resolves_on_open path session err :
  (Fs.requests (Fs.trace (Fs.createWriteStream path session
       (Fs.connected session ++ [Fs.fire 0 Fs.succeeds; Fs.fire 0 Fs.succeeds])))
     = [Fs.conn_sftp; Fs.sftp_createWriteStream path;
        Fs.stream_on "close"; Fs.stream_on "error"; Fs.stream_on "open"] /\
   Fs.inner (Fs.createWriteStream path session
       (Fs.connected session ++ [Fs.fire 0 Fs.succeeds; Fs.fire 0 Fs.succeeds]))
     = None) /\
  (Fs.outer (Fs.createWriteStream path session
       (Fs.connected session
        ++ [Fs.fire 0 Fs.succeeds; Fs.fire 0 Fs.succeeds; Fs.fire 2 Fs.succeeds]))
     = Some (Fs.Fulfilled Fs.VStream) /\
   Fs.closings (Fs.trace (Fs.createWriteStream path session
       (Fs.connected session
        ++ [Fs.fire 0 Fs.succeeds; Fs.fire 0 Fs.succeeds; Fs.fire 2 Fs.succeeds])))
     = []) /\
  Fs.closings (Fs.trace (Fs.createWriteStream path session
       (Fs.connected session
        ++ [Fs.fire 0 Fs.succeeds; Fs.fire 0 Fs.succeeds; Fs.fire 2 Fs.succeeds;
            Fs.fire 0 Fs.succeeds])))
    = (if session then [] else [conn_end; conn_destroy]) /\
  Fs.outer (Fs.createWriteStream path session
       (Fs.connected session ++ [Fs.fire 0 Fs.succeeds; Fs.fire 0 (Fs.fails err)]))
    = Some (Fs.Rejected err).
Proof. by destruct session. Qed.

(** X25: when the write stream of createWriteStream reports an error before
    it has opened, the promise rejects with that error, and a connection
    that cmd created is closed twice: conn.end() and conn.destroy() are
    called by the 'error' listener and again by handleConn.  When the error
    comes after the stream has opened, the promise keeps the stream it
    resolved with and the connection is closed once, by the listener.  A
    session is never closed. *)
Theorem createWriteStream_error_closes_twice path session err :
  (Fs.outer (Fs.createWriteStream path session
       (Fs.connected session
        ++ [Fs.fire 0 Fs.succeeds; Fs.fire 0 Fs.succeeds; Fs.fire 1 (Fs.fails err)]))
     = Some (Fs.Rejected err) /\
   Fs.closings (Fs.trace (Fs.createWriteStream path session
       (Fs.connected session
        ++ [Fs.fire 0 Fs.succeeds; Fs.fire 0 Fs.succeeds; Fs.fire 1 (Fs.fails err)])))
     = (if session then []
        else [conn_end; conn_destroy; conn_end; conn_destroy])) /\
  (Fs.outer (Fs.createWriteStream path session
       (Fs.connected session
        ++ [Fs.fire 0 Fs.succeeds; Fs.fire 0 Fs.succeeds; Fs.fire 2 Fs.succeeds;
            Fs.fire 1 (Fs.fails err)]))
     = Some (Fs.Fulfilled Fs.VStream) /\
   Fs.closings (Fs.trace (Fs.createWriteStream path session
       (Fs.connected session
        ++ [Fs.fire 0 Fs.succeeds; Fs.fire 0 Fs.succeeds; Fs.fire 2 Fs.succeeds;
            Fs.fire 1 (Fs.fails err)])))
     = (if session then [] else [conn_end; conn_destroy])).
Proof. by destruct session. Qed.

(** ** A session is never closed *)

Section FsSession.
Variables (cmdCB : list Fs.effect) (persist : bool).

Lemma fs_apply_harmless cb a :
  Fs.of_session cb -> Forall Fs.harmless (Fs.apply cb a).
Proof.
  intros Hcb.
  destruct cb, a; simpl in *; subst; repeat case_match;
    repeat constructor; done.
Qed.

Lemma fs_closings_snoc t x :
  Fs.closings (t ++ [x]) = Fs.closings t ++ option_list (Fs.closing x).
Proof. unfold Fs.closings. rewrite omap_app. simpl. by destruct (Fs.closing x). Qed.

Lemma fs_perform_all_harmless es :
  Forall Fs.harmless es ->
  forall w, Fs.session_inv w -> Fs.session_inv (Fs.perform_all es w).
Proof.
  induction 1 as [|e es He _ IH]; intros w [Hc Ho]; [done|].
  change (Fs.perform_all (e :: es) w) with (Fs.perform_all es (Fs.perform e w)).
  apply IH. destruct e as [val|err|r cb|r]; cbn in He; split;
    cbn [Fs.perform Fs.settle Fs.log Fs.trace Fs.outstanding];
    rewrite ?fs_closings_snoc, ?Hc; cbn [Fs.closing option_list app]; try done.
  - destruct He as [_ He]. by rewrite He.
  - apply Forall_app. split; [done|]. constructor; [apply He|done].
  - by rewrite He.
Qed.

Lemma fs_drain_session w :
  Fs.session_inv w -> Fs.session_inv (Fs.drain true persist w).
Proof.
  intros [Hc Ho]. unfold Fs.drain.
  destruct (Fs.inner w) as [[val|err]|], (Fs.outer w); try done;
    split; cbn; rewrite ?fs_closings_snoc, ?Hc; done.
Qed.

Lemma fs_step_session w ev :
  Fs.session_inv w -> Fs.session_inv (Fs.step cmdCB true persist w ev).
Proof.
  intros Hinv. apply fs_drain_session. destruct ev as [s|i c]; [done|].
  cbn [Fs.dispatch].
  destruct (Fs.outstanding w !! i) as [[r cb]|] eqn:Hi; [|done].
  destruct (Fs.transport r c) as [a|]; [|done].
  destruct Hinv as [Hc Ho].
  apply fs_perform_all_harmless.
  - apply fs_apply_harmless. by apply (Forall_lookup_1 _ _ _ _ Ho Hi).
  - split; [done|]. cbn. destruct (Fs.persistent r); [done|].
    by apply Forall_delete.
Qed.

Lemma fs_run_session evs :
  Forall Fs.harmless cmdCB ->
  Fs.closings (Fs.trace (Fs.run cmdCB true persist evs)) = [].
Proof.
  intros Hcb.
  assert (Fs.session_inv (Fs.cmd cmdCB true persist)) as H0.
  { apply fs_drain_session. by apply fs_perform_all_harmless. }
  unfold Fs.run. revert H0. generalize (Fs.cmd cmdCB true persist).
  induction evs as [|ev evs IH]; intros w Hw; [apply Hw|].
  cbn [foldl]. apply IH. by apply fs_step_session.
Qed.
End FsSession.

(** X26: none of ls, stat, get, put, rm, mv, rmdir, mkdir, realpath, pwd,
    createReadStream and createWriteStream ever calls conn.end() or
    conn.destroy() on a session it was given, neither through handleConn
    nor in a stream listener, whatever ssh2 answers and whatever the streams
    emit. *)
Theorem fs_operations_never_close_a_session
    location remote local src dest path evs :
  Fs.closings (Fs.trace (Fs.ls location true evs)) = [] /\
  Fs.closings (Fs.trace (Fs.stat location true evs)) = [] /\
  Fs.closings (Fs.trace (Fs.get remote local true evs)) = [] /\
  Fs.closings (Fs.trace (Fs.put local remote true evs)) = [] /\
  Fs.closings (Fs.trace (Fs.rm location true evs)) = [] /\
  Fs.closings (Fs.trace (Fs.mv src dest true evs)) = [] /\
  Fs.closings (Fs.trace (Fs.rmdir path true evs)) = [] /\
  Fs.closings (Fs.trace (Fs.mkdir path true evs)) = [] /\
  Fs.closings (Fs.trace (Fs.realpath path true evs)) = [] /\
  Fs.closings (Fs.trace (Fs.pwd true evs)) = [] /\
  Fs.closings (Fs.trace (Fs.createReadStream path true evs)) = [] /\
  Fs.closings (Fs.trace (Fs.createWriteStream path true evs)) = [].
Proof.
  repeat split; apply fs_run_session; by repeat constructor.
Qed.
